(** * tesla-http-proxy-insecure: configuration resolution

    A shallow embedding of [cmd/tesla-http-proxy-insecure/main.go]: the
    configuration record [HTTPProxyConfig], its defaults as registered by
    [init], and [readFromEnvironment], together with the two Go standard
    library parsers it calls ([strconv.Atoi] and [time.ParseDuration]).

    Go strings are byte sequences, and so are Rocq's [string]s.  Go's [int]
    is taken to be 64 bits wide ([strconv.IntSize = 64]); integers are
    modelled in [Z] with the wrap-around written out where the Go code can
    reach it. *)

From Stdlib Require Import ZArith Ascii String Lia SpecFloat.
From stdpp Require Import base option strings gmap.

Local Open Scope string_scope.
Local Open Scope Z_scope.

(** ** Bytes and fixed-width integers *)

Definition byteVal (c : ascii) : Z := Z.of_nat (nat_of_ascii c).

(** ['0' <= c && c <= '9'] *)
Definition isDigit (c : ascii) : bool :=
  (48 <=? byteVal c) && (byteVal c <=? 57).

(** [c - '0'] for a digit [c]. *)
Definition digitVal (c : ascii) : Z := byteVal c - 48.

Definition maxUint64 : Z := 2 ^ 64 - 1.
Definition maxInt64 : Z := 2 ^ 63 - 1.
Definition minInt64 : Z := - 2 ^ 63.

(** Conversion to [uint64]: reduction modulo [2^64]. *)
Definition wrapU64 (z : Z) : Z := z mod 2 ^ 64.

(** Conversion to [int64]: two's complement reading of the low 64 bits. *)
Definition wrapI64 (z : Z) : Z := (z + 2 ^ 63) mod 2 ^ 64 - 2 ^ 63.

Definition inInt64 (z : Z) : Prop := minInt64 <= z <= maxInt64.

(** ** Package strconv: [Atoi], base 10 only *)

Module strconv.

Definition intSize : Z := 64.

(** The [Err] field of a [*NumError]. *)
Inductive NumError : Set := ErrSyntax | ErrRange.

(** A Go [error] produced by this package; [None] is [nil]. *)
Definition error : Set := option NumError.

(** The digit loop of [ParseUint] for [base = 10], [bitSize = 64].
    A byte that is not a decimal digit is a syntax error (a letter has
    digit value at least 10, hence [d >= base]); the accumulator is
    checked for overflow before the multiplication and after the
    addition. *)
Fixpoint parseUintLoop (s : string) (n : Z) : Z * error :=
  match s with
  | EmptyString => (n, None)
  | String c s' =>
      if isDigit c then
        let d := digitVal c in
        let cutoff := maxUint64 / 10 + 1 in
        if cutoff <=? n then (maxUint64, Some ErrRange)
        else
          let n := wrapU64 (n * 10) in
          let n1 := wrapU64 (n + d) in
          if (n1 <? n) || (maxUint64 <? n1) then (maxUint64, Some ErrRange)
          else parseUintLoop s' n1
      else (0, Some ErrSyntax)
  end.

(** [ParseUint(s, 10, 0)] *)
Definition ParseUint (s : string) : Z * error :=
  match s with
  | EmptyString => (0, Some ErrSyntax)
  | _ => parseUintLoop s 0
  end.

(** [ParseInt(s, 10, 0)] *)
Definition ParseInt (s : string) : Z * error :=
  match s with
  | EmptyString => (0, Some ErrSyntax)
  | String c s' =>
      let '(neg, s1) :=
        if Ascii.eqb c "+" then (false, s')
        else if Ascii.eqb c "-" then (true, s')
        else (false, s) in
      match ParseUint s1 with
      | (_, Some ErrSyntax) => (0, Some ErrSyntax)
      | (un, _) =>
          let cutoff := 2 ^ (intSize - 1) in
          if negb neg && (cutoff <=? un) then (cutoff - 1, Some ErrRange)
          else if neg && (cutoff <? un) then (- cutoff, Some ErrRange)
          else
            let n := wrapI64 un in
            (if neg then wrapI64 (- n) else n, None)
      end
  end.

(** The digit loop of [Atoi]'s fast path; the subtraction [ch -= '0']
    is on bytes, so every non-digit ends up above 9. *)
Fixpoint atoiFastLoop (s : string) (n : Z) : Z * error :=
  match s with
  | EmptyString => (n, None)
  | String ch s' =>
      let ch := (byteVal ch - 48) mod 256 in
      if 9 <? ch then (0, Some ErrSyntax)
      else atoiFastLoop s' (n * 10 + ch)
  end.

(** [Atoi(s)]: a fast path for strings of 1 to 18 bytes, which cannot
    overflow, and [ParseInt(s, 10, 0)] otherwise. *)
Definition Atoi (s : string) : Z * error :=
  let sLen := Z.of_nat (String.length s) in
  if (0 <? sLen) && (sLen <? 19) then
    match s with
    | EmptyString => (0, Some ErrSyntax)
    | String c0 s' =>
        let signed := Ascii.eqb c0 "-" || Ascii.eqb c0 "+" in
        let s1 := if signed then s' else s in
        if signed && (Z.of_nat (String.length s1) <? 1) then (0, Some ErrSyntax)
        else
          match atoiFastLoop s1 0 with
          | (n, None) => (if Ascii.eqb c0 "-" then - n else n, None)
          | (_, Some e) => (0, Some e)
          end
    end
  else ParseInt s.

End strconv.

(** ** Package time: [ParseDuration] *)

Module time.

(** A [Duration] is an [int64] count of nanoseconds. *)
Definition Nanosecond : Z := 1.
Definition Microsecond : Z := 1000 * Nanosecond.
Definition Millisecond : Z := 1000 * Microsecond.
Definition Second : Z := 1000 * Millisecond.
Definition Minute : Z := 60 * Second.
Definition Hour : Z := 60 * Minute.

(** The errors [ParseDuration] builds with [errors.New]; the quoted
    original string of the message is left out. *)
Inductive DurationError : Set :=
| ErrInvalidDuration
| ErrMissingUnit
| ErrUnknownUnit (u : string).

Definition error : Set := option DurationError.

(** The micro sign U+00B5 and the Greek letter mu U+03BC, in UTF-8. *)
Definition microSign : string :=
  String (ascii_of_nat 194) (String (ascii_of_nat 181) EmptyString).
Definition greekMu : string :=
  String (ascii_of_nat 206) (String (ascii_of_nat 188) EmptyString).

(** [unitMap] *)
Definition unitMap (u : string) : option Z :=
  if String.eqb u "ns" then Some Nanosecond
  else if String.eqb u "us" then Some Microsecond
  else if String.eqb u (microSign ++ "s") then Some Microsecond
  else if String.eqb u (greekMu ++ "s") then Some Microsecond
  else if String.eqb u "ms" then Some Millisecond
  else if String.eqb u "s" then Some Second
  else if String.eqb u "m" then Some Minute
  else if String.eqb u "h" then Some Hour
  else None.

(** *** float64, as IEEE 754 binary64 *)

Definition float64 : Set := spec_float.
Definition f64_of_uint64 (z : Z) : float64 := binary_normalize 53 1024 z 0 false.
Definition f64_mul : float64 -> float64 -> float64 := SFmul 53 1024.
Definition f64_div : float64 -> float64 -> float64 := SFdiv 53 1024.

(** [uint64(x)]: truncation towards zero.  Go leaves the conversion of a
    value outside the target's range to the implementation; the model
    follows amd64, which yields [2^63].  [ParseDuration] converts only the
    product of a non-negative fraction below one and a unit of at most an
    hour. *)
Definition uint64_of_f64 (x : float64) : Z :=
  match x with
  | S754_zero _ => 0
  | S754_finite false m e =>
      let t := if 0 <=? e then Z.pos m * 2 ^ e else Z.pos m / 2 ^ (- e) in
      if t <=? maxUint64 then t else 2 ^ 63
  | S754_finite true m e =>
      let t := if 0 <=? e then Z.pos m * 2 ^ e else Z.pos m / 2 ^ (- e) in
      if t =? 0 then 0 else 2 ^ 63
  | _ => 2 ^ 63
  end.

(** [leadingInt]: the leading [[0-9]*] of [s], the rest of [s], and
    whether the number overflowed ([errLeadingInt]).  [x] is the
    accumulator of the loop; the call of the Go function is
    [leadingInt s 0]. *)
Fixpoint leadingInt (s : string) (x : Z) : Z * string * bool :=
  match s with
  | EmptyString => (x, s, false)
  | String c s' =>
      if negb (isDigit c) then (x, s, false)
      else if 2 ^ 63 / 10 <? x then (0, "", true)
      else
        let x := x * 10 + digitVal c in
        if 2 ^ 63 <? x then (0, "", true)
        else leadingInt s' x
  end.

(** [leadingFraction]: the leading [[0-9]*] of [s] as a numerator [x] and
    a power of ten [scale]; digits past an overflow are skipped.  [x],
    [scale] and [overflow] are the loop's variables; the call of the Go
    function is [leadingFraction s 0 1 false]. *)
Fixpoint leadingFraction (s : string) (x : Z) (scale : float64) (overflow : bool)
  : Z * float64 * string :=
  match s with
  | EmptyString => (x, scale, s)
  | String c s' =>
      if negb (isDigit c) then (x, scale, s)
      else if overflow then leadingFraction s' x scale overflow
      else if (2 ^ 63 - 1) / 10 <? x then leadingFraction s' x scale true
      else
        let y := x * 10 + digitVal c in
        if 2 ^ 63 <? y then leadingFraction s' x scale true
        else leadingFraction s' y (f64_mul scale (f64_of_uint64 10)) false
  end.

(** The unit loop: the longest prefix of [s] free of ['.'] and digits,
    and what follows it. *)
Fixpoint unitSpan (s : string) : string * string :=
  match s with
  | EmptyString => ("", "")
  | String c s' =>
      if Ascii.eqb c "." || isDigit c then ("", s)
      else let '(u, rest) := unitSpan s' in (String c u, rest)
  end.

Definition startsWithDot (s : string) : bool :=
  match s with
  | String c _ => Ascii.eqb c "."
  | EmptyString => false
  end.

Definition tail (s : string) : string :=
  match s with
  | String _ s' => s'
  | EmptyString => ""
  end.

(** The loop [for s != ""] of [ParseDuration], [d] being the sum so far.
    Each round reads one number and one unit.  The result is [inl d] when
    the string is used up and [inr e] when the function returns the error
    [e]; [None] means the fuel ran out, which [String.length s] rounds
    rule out ([durationLoop_fuel] below). *)
Fixpoint durationLoop (fuel : nat) (s : string) (d : Z)
  : option (Z + DurationError) :=
  match s with
  | EmptyString => Some (inl d)
  | String c0 _ =>
      match fuel with
      | O => None
      | S fuel =>
          if negb (Ascii.eqb c0 "." || isDigit c0) then Some (inr ErrInvalidDuration)
          else
            let pl := String.length s in
            let '(v, s1, err) := leadingInt s 0 in
            if err then Some (inr ErrInvalidDuration)
            else
              let pre := negb (Nat.eqb pl (String.length s1)) in
              let '(f, scale, s2, post) :=
                if startsWithDot s1 then
                  let s1' := tail s1 in
                  let '(f, scale, s2) :=
                    leadingFraction s1' 0 (f64_of_uint64 1) false in
                  (f, scale, s2,
                   negb (Nat.eqb (String.length s1') (String.length s2)))
                else (0, f64_of_uint64 1, s1, false) in
              if negb pre && negb post then Some (inr ErrInvalidDuration)
              else
                let '(u, s3) := unitSpan s2 in
                match u with
                | EmptyString => Some (inr ErrMissingUnit)
                | _ =>
                    match unitMap u with
                    | None => Some (inr (ErrUnknownUnit u))
                    | Some unit =>
                        if 2 ^ 63 / unit <? v then Some (inr ErrInvalidDuration)
                        else
                          let v := wrapU64 (v * unit) in
                          let v' :=
                            if 0 <? f then
                              wrapU64 (v + uint64_of_f64
                                (f64_mul (f64_of_uint64 f)
                                   (f64_div (f64_of_uint64 unit) scale)))
                            else v in
                          if (0 <? f) && (2 ^ 63 <? v') then
                            Some (inr ErrInvalidDuration)
                          else
                            let d := wrapU64 (d + v') in
                            if 2 ^ 63 <? d then Some (inr ErrInvalidDuration)
                            else durationLoop fuel s3 d
                    end
                end
      end
  end.

(** [ParseDuration(s)] *)
Definition ParseDuration (s : string) : Z * error :=
  let '(neg, s) :=
    match s with
    | String c s' =>
        if Ascii.eqb c "-" || Ascii.eqb c "+" then (Ascii.eqb c "-", s')
        else (false, s)
    | EmptyString => (false, s)
    end in
  if String.eqb s "0" then (0, None)
  else if String.eqb s "" then (0, Some ErrInvalidDuration)
  else
    match durationLoop (String.length s) s 0 with
    | Some (inl d) =>
        if neg then (wrapI64 (- wrapI64 d), None)
        else if 2 ^ 63 - 1 <? d then (0, Some ErrInvalidDuration)
        else (wrapI64 d, None)
    | Some (inr e) => (0, Some e)
    | None => (0, Some ErrInvalidDuration)
    end.

End time.

(** ** Package main *)

Definition cacheSize : Z := 10000.
Definition defaultPort : Z := 8080.

Definition EnvHost : string := "TESLA_HTTP_PROXY_HOST".
Definition EnvPort : string := "TESLA_HTTP_PROXY_PORT".
Definition EnvTimeout : string := "TESLA_HTTP_PROXY_TIMEOUT".
Definition EnvVerbose : string := "TESLA_VERBOSE".

(** [HTTPProxyConfig] holds configuration for the HTTP-only proxy server.
    [port] is a Go [int], [timeout] a [time.Duration]. *)
Record HTTPProxyConfig : Set := mkHTTPProxyConfig {
  verbose : bool;
  host : string;
  port : Z;
  timeout : Z
}.

Definition set_verbose (b : bool) (c : HTTPProxyConfig) : HTTPProxyConfig :=
  {| verbose := b; host := host c; port := port c; timeout := timeout c |}.
Definition set_host (h : string) (c : HTTPProxyConfig) : HTTPProxyConfig :=
  {| verbose := verbose c; host := h; port := port c; timeout := timeout c |}.
Definition set_port (n : Z) (c : HTTPProxyConfig) : HTTPProxyConfig :=
  {| verbose := verbose c; host := host c; port := n; timeout := timeout c |}.
Definition set_timeout (d : Z) (c : HTTPProxyConfig) : HTTPProxyConfig :=
  {| verbose := verbose c; host := host c; port := port c; timeout := d |}.

(** The process environment, as [os.LookupEnv] sees it: a finite map from
    variable names to values; an absent key gives [ok = false]. *)
Definition LookupEnv (env : gmap string string) (key : string) : option string :=
  env !! key.

(** The values given on the command line, as the [flag] package parsed
    them; [None] stands for a flag that was not given. *)
Record CommandLine : Set := mkCommandLine {
  flagVerbose : option bool;
  flagHost : option string;
  flagPort : option Z;
  flagTimeout : option Z
}.

Definition noFlags : CommandLine :=
  {| flagVerbose := None; flagHost := None; flagPort := None; flagTimeout := None |}.

(** A Go [error] of package main: [None] is [nil], [Some msg] an error
    made by [fmt.Errorf] with text [msg]. *)
Definition error : Set := option string.

Section Main.

(** [proxy.DefaultTimeout], a constant of package [pkg/proxy]. *)
Variable DefaultTimeout : Z.

(** [httpConfig] once [init] has registered the four flags: each
    [flag.XxxVar] stores the flag's default in the field. *)
Definition init : HTTPProxyConfig :=
  {| verbose := false;
     host := "localhost";
     port := defaultPort;
     timeout := DefaultTimeout |}.

(** [flag.Parse()]: every flag that was given overwrites its field. *)
Definition flagParse (args : CommandLine) (c : HTTPProxyConfig) : HTTPProxyConfig :=
  let c := match flagVerbose args with Some b => set_verbose b c | None => c end in
  let c := match flagHost args with Some h => set_host h c | None => c end in
  let c := match flagPort args with Some n => set_port n c | None => c end in
  match flagTimeout args with Some d => set_timeout d c | None => c end.

(** [readFromEnvironment], lines 114-118: the host. *)
Definition readHost (env : gmap string string) (c : HTTPProxyConfig) : HTTPProxyConfig :=
  if String.eqb (host c) "localhost" then
    match LookupEnv env EnvHost with
    | Some h => set_host h c
    | None => c
    end
  else c.

(** [readFromEnvironment], lines 120-124: verbosity. *)
Definition readVerbose (env : gmap string string) (c : HTTPProxyConfig) : HTTPProxyConfig :=
  if negb (verbose c) then
    match LookupEnv env EnvVerbose with
    | Some v =>
        set_verbose (negb (String.eqb v "false") && negb (String.eqb v "0")) c
    | None => c
    end
  else c.

(** [readFromEnvironment], lines 127-134: the port.  The result of
    [strconv.Atoi] is assigned to the field before the error is looked
    at. *)
Definition readPort (env : gmap string string) (c : HTTPProxyConfig)
  : HTTPProxyConfig * error :=
  if port c =? defaultPort then
    match LookupEnv env EnvPort with
    | Some p =>
        let '(n, err) := strconv.Atoi p in
        let c := set_port n c in
        match err with
        | Some _ => (c, Some ("invalid port: " ++ p)%string)
        | None => (c, None)
        end
    | None => (c, None)
    end
  else (c, None).

(** [readFromEnvironment], lines 136-145: the timeout, assigned in the
    same way, and the final [return nil]. *)
Definition readTimeout (env : gmap string string) (c : HTTPProxyConfig)
  : HTTPProxyConfig * error :=
  if timeout c =? DefaultTimeout then
    match LookupEnv env EnvTimeout with
    | Some t =>
        let '(d, err) := time.ParseDuration t in
        let c := set_timeout d c in
        match err with
        | Some _ => (c, Some ("invalid timeout: " ++ t)%string)
        | None => (c, None)
        end
    | None => (c, None)
    end
  else (c, None).

(** [readFromEnvironment] applies configuration from environment
    variables.  The Go function works on the global [httpConfig]; here it
    takes the record and returns it with the error. *)
Definition readFromEnvironment (env : gmap string string) (c : HTTPProxyConfig)
  : HTTPProxyConfig * error :=
  let c := readHost env c in
  let c := readVerbose env c in
  match readPort env c with
  | (c, Some e) => (c, Some e)
  | (c, None) => readTimeout env c
  end.

(** [main], lines 79-81: the flags are parsed into the record [init]
    left, then the environment is read. *)
Definition resolve (args : CommandLine) (env : gmap string string)
  : HTTPProxyConfig * error :=
  readFromEnvironment env (flagParse args init).

End Main.

(** ** Package fmt: the verb [%d] on an [int] *)

(** ['0' + d] *)
Definition digitChar (d : Z) : ascii := ascii_of_nat (Z.to_nat (48 + d)).

(** The digit loop of [fmtInteger] in base 10: digits are written from
    the right end of the buffer, least significant first.  [fuel] bounds
    the rounds; twenty are enough for a [uint64]. *)
Fixpoint fmtDigits (fuel : nat) (u : Z) (buf : string) : string :=
  match fuel with
  | O => buf
  | S fuel =>
      if 10 <=? u then
        let next := u / 10 in
        fmtDigits fuel next (String (digitChar (u - next * 10)) buf)
      else String (digitChar u) buf
  end.

(** [fmt.Sprintf("%d", n)]: the magnitude is taken in [uint64], a minus
    sign goes in front of a negative number. *)
Definition formatInt (n : Z) : string :=
  let negative := n <? 0 in
  let u := if negative then wrapU64 (- n) else n in
  let digits := fmtDigits 20 u "" in
  if negative then String "-" digits else digits.

(** ** [main]: the startup sequence *)

(** What [main] does to the outside, in the order it does it.  The text of
    a [StderrWrite] is the formatted output of [fmt.Fprintf(os.Stderr, ...)];
    the [log] calls keep their format and argument apart, package
    [internal/log] doing the formatting and returning to its caller. *)
Inductive Event : Set :=
| CallNewConfig
| StderrWrite (text : string)
| CallRegisterCommandLineFlags
| CallFlagParse
| CallConfigReadFromEnvironment
| LogSetLevelDebug
| CallPrivateKey
| LogDebug (format : string)
| CallProxyNew (size : Z)
| LogError (format arg : string)
| SetProxyTimeout (d : Z)
| LogInfo (format arg : string)
| CallListenAndServe (addr : string).

(** How the process ends: [os.Exit(code)] (a return from [main] is
    status 0), or never, the listener serving for good. *)
Inductive Termination : Set :=
| Exit (code : Z)
| Serving.

(** What the outside answers: the error of [cli.NewConfig] (as its
    [Error()] text), the outcome of [flag.Parse] (the flags read, or the
    status with which the [flag] package ends the process on a bad command
    line or [-help]), the environment, the errors of [config.PrivateKey] and
    [proxy.New], and the error [http.ListenAndServe] returns, if it returns. *)
Record World : Set := mkWorld {
  newConfigErr : option string;
  flags : CommandLine + Z;
  environ : gmap string string;
  privateKeyErr : option string;
  proxyNewErr : option string;
  listenErr : option string
}.

(** The line feed of the format strings. *)
Definition nl : string := String (ascii_of_nat 10) EmptyString.

Section Startup.

Variable DefaultTimeout : Z.

(** The function [main] defers, run when [main] returns with [err] as it
    then is. *)
Definition deferred (err : option string) : list Event * Termination :=
  match err with
  | Some e => ([StderrWrite ("Error: " ++ e ++ nl)], Exit 1)
  | None => ([], Exit 0)
  end.

(** [main], lines 92-108, entered with the resolved [httpConfig]. *)
Definition serve (w : World) (c : HTTPProxyConfig) : list Event * Termination :=
  match privateKeyErr w with
  | Some e =>
      let '(late, x) := deferred (Some e) in
      (([CallPrivateKey] ++ late)%list, x)
  | None =>
      match proxyNewErr w with
      | Some e =>
          let '(late, x) := deferred (Some e) in
          (([CallPrivateKey; LogDebug "Creating proxy"; CallProxyNew cacheSize;
             LogError "Error initializing proxy service: %v" e] ++ late)%list, x)
      | None =>
          let addr := (host c ++ ":" ++ formatInt (port c))%string in
          let started :=
            [CallPrivateKey; LogDebug "Creating proxy"; CallProxyNew cacheSize;
             SetProxyTimeout (timeout c);
             LogInfo "Listening on %s (HTTP, no TLS)" addr;
             CallListenAndServe addr] in
          match listenErr w with
          | None => (started, Serving)
          | Some e =>
              let '(late, x) := deferred None in
              ((started ++ [LogError "Server stopped: %s" e] ++ late)%list, x)
          end
      end
  end.

(** [main]: the events and the way the process ends. *)
Definition main (w : World) : list Event * Termination :=
  match newConfigErr w with
  | Some e =>
      ([CallNewConfig;
        StderrWrite ("Failed to load credential configuration: " ++ e ++ nl)],
       Exit 1)
  | None =>
      let parsing := [CallNewConfig; CallRegisterCommandLineFlags; CallFlagParse] in
      match flags w with
      | inr code => (parsing, Exit code)
      | inl args =>
          match readFromEnvironment DefaultTimeout (environ w)
                  (flagParse args (init DefaultTimeout)) with
          | (_, Some e) =>
              ((parsing
                  ++ [StderrWrite ("Error reading environment: " ++ e ++ nl)%string])%list,
               Exit 1)
          | (c, None) =>
              let '(rest, x) := serve w c in
              ((parsing ++ [CallConfigReadFromEnvironment]
                  ++ (if verbose c then [LogSetLevelDebug] else [])
                  ++ rest)%list, x)
          end
      end
  end.

(** The command line without the flags that carry their default. *)
Definition dropDefaults (args : CommandLine) : CommandLine :=
  {| flagVerbose :=
       match flagVerbose args with
       | Some false => None
       | o => o
       end;
     flagHost :=
       match flagHost args with
       | Some h => if String.eqb h "localhost" then None else Some h
       | None => None
       end;
     flagPort :=
       match flagPort args with
       | Some n => if n =? defaultPort then None else Some n
       | None => None
       end;
     flagTimeout :=
       match flagTimeout args with
       | Some d => if d =? DefaultTimeout then None else Some d
       | None => None
       end |}.

End Startup.

(** A world in which everything succeeds and the listener fails to bind. *)
Definition bindFailure : World :=
  {| newConfigErr := None;
     flags := inl {| flagVerbose := None; flagHost := None; flagPort := None;
                     flagTimeout := None |};
     environ := <[EnvPort := "9090"]> ∅;
     privateKeyErr := None;
     proxyNewErr := None;
     listenErr := Some "listen tcp 127.0.0.1:9090: bind: address already in use" |}.

(** A world in which the port variable is not a number. *)
Definition badPortWorld : World :=
  {| newConfigErr := None;
     flags := inl {| flagVerbose := Some true; flagHost := None; flagPort := None;
                     flagTimeout := None |};
     environ := <[EnvPort := "notanumber"]> (<[EnvTimeout := "30s"]> ∅);
     privateKeyErr := None;
     proxyNewErr := None;
     listenErr := None |}.

(** A world in which the handler cannot be built. *)
Definition proxyFailure : World :=
  {| newConfigErr := None;
     flags := inl {| flagVerbose := Some true; flagHost := None; flagPort := None;
                     flagTimeout := None |};
     environ := ∅;
     privateKeyErr := None;
     proxyNewErr := Some "invalid key";
     listenErr := None |}.

(** ** Decimal numerals, as the specification reads them *)

Fixpoint allDigits (s : string) : bool :=
  match s with
  | EmptyString => true
  | String c s' => isDigit c && allDigits s'
  end.

(** The number a digit string denotes, continuing from [acc]. *)
Fixpoint decimalValue (s : string) (acc : Z) : Z :=
  match s with
  | EmptyString => acc
  | String c s' => decimalValue s' (acc * 10 + digitVal c)
  end.

(** One or more decimal digits. *)
Definition unsignedSyntax (s : string) : option Z :=
  match s with
  | EmptyString => None
  | _ => if allDigits s then Some (decimalValue s 0) else None
  end.

(** An optional sign followed by one or more decimal digits. *)
Definition intSyntax (s : string) : option Z :=
  match s with
  | EmptyString => None
  | String c s' =>
      if Ascii.eqb c "+" then unsignedSyntax s'
      else if Ascii.eqb c "-" then option_map Z.opp (unsignedSyntax s')
      else unsignedSyntax s
  end.

(** A valid base-10 integer: a signed decimal numeral whose value a Go
    [int] can hold. *)
Definition validInt (s : string) : Prop :=
  exists n, intSyntax s = Some n /\ inInt64 n.

(** ** Duration strings, as the specification reads them *)

(** A byte of a unit name: anything but a digit and the dot. *)
Definition isUnitByte (c : ascii) : bool := negb (Ascii.eqb c "." || isDigit c).

Fixpoint allUnitBytes (s : string) : bool :=
  match s with
  | EmptyString => true
  | String c s' => isUnitByte c && allUnitBytes s'
  end.

(** The units of a duration string and their length in nanoseconds. *)
Definition durationUnits : list (string * Z) :=
  [("ns", 1); ("us", 1000); (time.microSign ++ "s", 1000);
   (time.greekMu ++ "s", 1000); ("ms", 1000000); ("s", 1000000000);
   ("m", 60000000000); ("h", 3600000000000)].

Fixpoint assocUnit (l : list (string * Z)) (u : string) : option Z :=
  match l with
  | [] => None
  | (name, n) :: l' => if String.eqb u name then Some n else assocUnit l' u
  end.

Definition unitNanos (u : string) : option Z := assocUnit durationUnits u.

(** One decimal number with its unit: the digits before the point, the
    digits after it when there is a point, and the unit's name. *)
Record Segment : Set := mkSegment {
  intPart : string;
  fracPart : option string;
  unitName : string
}.

Definition fracText (g : Segment) : string :=
  match fracPart g with
  | Some fp => "." ++ fp
  | None => ""
  end.

Definition renderSegment (g : Segment) : string :=
  intPart g ++ fracText g ++ unitName g.

Fixpoint render (segs : list Segment) : string :=
  match segs with
  | [] => ""
  | g :: rest => renderSegment g ++ render rest
  end.

(** The number has a digit, before or after the point. *)
Definition hasDigit (g : Segment) : bool :=
  negb (String.eqb (intPart g) "") ||
  match fracPart g with
  | Some fp => negb (String.eqb fp "")
  | None => false
  end.

(** The form of a segment: digits, optional point and digits, at least
    one digit, and a unit of the table. *)
Definition segmentForm (g : Segment) : bool :=
  allDigits (intPart g) &&
  match fracPart g with Some fp => allDigits fp | None => true end &&
  hasDigit g &&
  negb (String.eqb (unitName g) "") &&
  allUnitBytes (unitName g) &&
  match unitNanos (unitName g) with Some _ => true | None => false end.

(** The nanoseconds the digits [fp] after the point stand for, in a unit
    of [unit] nanoseconds, computed in float64. *)
Definition fractionNanos (fp : string) (unit : Z) : Z :=
  let '(f, scale, _) := time.leadingFraction fp 0 (time.f64_of_uint64 1) false in
  if 0 <? f then
    time.uint64_of_f64
      (time.f64_mul (time.f64_of_uint64 f) (time.f64_div (time.f64_of_uint64 unit) scale))
  else 0.

(** The nanoseconds of a segment; [None] when the whole part or the
    segment exceeds [2^63]. *)
Definition segmentNanos (g : Segment) : option Z :=
  match unitNanos (unitName g) with
  | None => None
  | Some unit =>
      let whole := decimalValue (intPart g) 0 * unit in
      if 2 ^ 63 <? whole then None
      else
        let v :=
          match fracPart g with
          | Some fp => wrapU64 (whole + fractionNanos fp unit)
          | None => whole
          end in
        if 2 ^ 63 <? v then None else Some v
  end.

(** The sum of the segments added to [d], taken in [uint64]; [None] when
    a segment or a partial sum exceeds [2^63]. *)
Fixpoint totalNanos (segs : list Segment) (d : Z) : option Z :=
  match segs with
  | [] => Some d
  | g :: rest =>
      match segmentNanos g with
      | None => None
      | Some v =>
          let d := wrapU64 (d + v) in
          if 2 ^ 63 <? d then None else totalNanos rest d
      end
  end.

(** An optional sign and what follows it. *)
Definition splitSign (s : string) : bool * string :=
  match s with
  | EmptyString => (false, "")
  | String c s' =>
      if Ascii.eqb c "-" then (true, s')
      else if Ascii.eqb c "+" then (false, s')
      else (false, s)
  end.

(** A valid duration string: a possibly signed sequence of decimal
    numbers, each with an optional fraction and a unit suffix, or a
    possibly signed "0"; no number and no partial sum may exceed [2^63]
    nanoseconds, and a duration without minus sign must not exceed
    [2^63 - 1]. *)
Definition validDuration (s : string) : Prop :=
  let '(neg, body) := splitSign s in
  body = "0" \/
  exists segs d,
    segs <> [] /\ body = render segs /\ forallb segmentForm segs = true /\
    totalNanos segs 0 = Some d /\ (neg = true \/ d <= maxInt64).

(** ** Auxiliary definitions for the proofs *)

(** What a string begins with: not a digit; a digit or the dot. *)
Definition startsNonDigit (s : string) : Prop :=
  match s with
  | EmptyString => True
  | String c _ => isDigit c = false
  end.

Definition startsNumber (s : string) : Prop :=
  match s with
  | EmptyString => True
  | String c _ => (Ascii.eqb c "." || isDigit c) = true
  end.

(** What [ParseInt] does once the sign is off: [neg] tells whether a minus
    sign was read, [r] is the result of [ParseUint]. *)
Definition parseIntTail (neg : bool) (r : Z * strconv.error) : Z * strconv.error :=
  match r with
  | (_, Some strconv.ErrSyntax) => (0, Some strconv.ErrSyntax)
  | (un, _) =>
      let cutoff := 2 ^ (strconv.intSize - 1) in
      if negb neg && (cutoff <=? un) then (cutoff - 1, Some strconv.ErrRange)
      else if neg && (cutoff <? un) then (- cutoff, Some strconv.ErrRange)
      else
        let n := wrapI64 un in
        (if neg then wrapI64 (- n) else n, None)
  end.

(** The result [Atoi] owes a numeral of value [n]. *)
Definition clampInt (n : Z) : Z * strconv.error :=
  if maxInt64 <? n then (maxInt64, Some strconv.ErrRange)
  else if n <? minInt64 then (minInt64, Some strconv.ErrRange)
  else (n, None).

(** The port block, resp. the timeout block, consults its variable and
    finds it invalid. *)
Definition portRejected (env : gmap string string) (c : HTTPProxyConfig) : Prop :=
  port c = defaultPort /\
  exists p, LookupEnv env EnvPort = Some p /\ ~ validInt p.

Definition timeoutRejected (DefaultTimeout : Z) (env : gmap string string)
    (c : HTTPProxyConfig) : Prop :=
  timeout c = DefaultTimeout /\
  exists t, LookupEnv env EnvTimeout = Some t /\ ~ validDuration t.

(** Two environments that differ at most in the variable [key]. *)
Definition sameExcept (key : string) (env env' : gmap string string) : Prop :=
  forall k, k <> key -> LookupEnv env' k = LookupEnv env k.

(** The permissive reading of [TESLA_VERBOSE]. *)
Definition verboseValue (v : string) : bool :=
  negb (String.eqb v "false") && negb (String.eqb v "0").

(** ** Sample inputs *)

(** A value for [proxy.DefaultTimeout] to run the model with. *)
Definition tenSeconds : Z := 10 * time.Second.

Definition testEnv : gmap string string :=
  <[EnvHost := "0.0.0.0"]> (<[EnvPort := "9090"]>
    (<[EnvVerbose := "true"]> (<[EnvTimeout := "30s"]> ∅))).

Definition flagArgs : CommandLine :=
  {| flagVerbose := Some true;
     flagHost := Some "flaghost";
     flagPort := Some 8888;
     flagTimeout := Some (60 * time.Second) |}.

Definition flagEnv : gmap string string :=
  <[EnvHost := "envhost"]> (<[EnvPort := "9090"]>
    (<[EnvVerbose := "false"]> (<[EnvTimeout := "30s"]> ∅))).

Definition badPortEnv : gmap string string :=
  <[EnvPort := "notanumber"]> (<[EnvTimeout := "30s"]>
    (<[EnvVerbose := "true"]> ∅)).

Definition portFlag (n : Z) : CommandLine :=
  {| flagVerbose := None; flagHost := None; flagPort := Some n; flagTimeout := None |}.

(** ** The parsers and the tests of [main_test.go] at concrete inputs *)

Example Atoi_9090 : strconv.Atoi "9090" = (9090, None).
Proof. reflexivity. Qed.

Example Atoi_notanumber : strconv.Atoi "notanumber" = (0, Some strconv.ErrSyntax).
Proof. reflexivity. Qed.

Example Atoi_too_big :
  strconv.Atoi "9223372036854775808" = (maxInt64, Some strconv.ErrRange).
Proof. vm_compute. reflexivity. Qed.

Example Atoi_too_small :
  strconv.Atoi "-9223372036854775809" = (minInt64, Some strconv.ErrRange).
Proof. vm_compute. reflexivity. Qed.

Example Atoi_min : strconv.Atoi "-9223372036854775808" = (minInt64, None).
Proof. vm_compute. reflexivity. Qed.

Example Atoi_empty : strconv.Atoi "" = (0, Some strconv.ErrSyntax).
Proof. reflexivity. Qed.

Example Atoi_sign_only : strconv.Atoi "-" = (0, Some strconv.ErrSyntax).
Proof. reflexivity. Qed.

Example ParseDuration_30s : time.ParseDuration "30s" = (30 * time.Second, None).
Proof. vm_compute. reflexivity. Qed.

Example ParseDuration_1m30s : time.ParseDuration "1m30s" = (90 * time.Second, None).
Proof. vm_compute. reflexivity. Qed.

Example ParseDuration_frac : time.ParseDuration "1.5h" = (90 * time.Minute, None).
Proof. vm_compute. reflexivity. Qed.

Example ParseDuration_frac2 : time.ParseDuration "-0.001s" = (- time.Millisecond, None).
Proof. vm_compute. reflexivity. Qed.

Example ParseDuration_notaduration :
  time.ParseDuration "notaduration" = (0, Some time.ErrInvalidDuration).
Proof. vm_compute. reflexivity. Qed.

Example ParseDuration_nounit :
  time.ParseDuration "30" = (0, Some time.ErrMissingUnit).
Proof. vm_compute. reflexivity. Qed.

Example ParseDuration_badunit :
  time.ParseDuration "30x" = (0, Some (time.ErrUnknownUnit "x")).
Proof. vm_compute. reflexivity. Qed.

Example TestEnvironmentVariables :
  readFromEnvironment tenSeconds testEnv (init tenSeconds)
  = ({| verbose := true; host := "0.0.0.0"; port := 9090;
        timeout := 30 * time.Second |}, None).
Proof. vm_compute. reflexivity. Qed.

Example TestDefaultValues :
  readFromEnvironment tenSeconds ∅ (init tenSeconds) = (init tenSeconds, None).
Proof. vm_compute. reflexivity. Qed.

Example TestFlagsPrecedenceOverEnvironment :
  readFromEnvironment tenSeconds
    (<[EnvHost := "envhost"]> (<[EnvPort := "9090"]>
       (<[EnvVerbose := "true"]> (<[EnvTimeout := "30s"]> ∅))))
    (flagParse {| flagVerbose := None; flagHost := Some "flaghost";
                  flagPort := Some 8888; flagTimeout := Some (60 * time.Second) |}
       (init tenSeconds))
  = ({| verbose := true; host := "flaghost"; port := 8888;
        timeout := 60 * time.Second |}, None).
Proof. vm_compute. reflexivity. Qed.

Example TestInvalidPortEnvironmentVariable :
  (readFromEnvironment tenSeconds (<[EnvPort := "notanumber"]> ∅) (init tenSeconds)).2
  = Some "invalid port: notanumber".
Proof. vm_compute. reflexivity. Qed.

Example TestInvalidTimeoutEnvironmentVariable :
  (readFromEnvironment tenSeconds (<[EnvTimeout := "notaduration"]> ∅)
     (init tenSeconds)).2
  = Some "invalid timeout: notaduration".
Proof. vm_compute. reflexivity. Qed.

Example TestVerboseEnvironmentVariableParsing :
  map (fun v => verbose (readFromEnvironment tenSeconds (<[EnvVerbose := v]> ∅)
                           (init tenSeconds)).1)
      ["true"; "1"; "yes"; "anything"; "false"; "0"; "no"; ""]
  = [true; true; true; true; false; false; true; true].
Proof. vm_compute. reflexivity. Qed.

(** ** Facts about bytes and wrap-around *)

Lemma byteVal_range c : 0 <= byteVal c < 256.
Proof.
  unfold byteVal. pose proof (nat_ascii_bounded c). lia.
Qed.

Lemma isDigit_digitVal c : isDigit c = true -> 0 <= digitVal c <= 9.
Proof.
  unfold isDigit, digitVal. rewrite andb_true_iff, !Z.leb_le. lia.
Qed.

Lemma fast_digit_test c : (9 <? (byteVal c - 48) mod 256) = negb (isDigit c).
Proof.
  pose proof (byteVal_range c) as Hc. unfold isDigit.
  destruct (Z.leb_spec 48 (byteVal c)) as [Hlo|Hlo]; simpl.
  - rewrite Z.mod_small by lia.
    destruct (Z.leb_spec (byteVal c) 57); simpl; lia.
  - replace ((byteVal c - 48) mod 256) with (byteVal c + 208).
    + lia.
    + apply Z.mod_unique with (q := -1); lia.
Qed.

Lemma fast_digit_value c :
  isDigit c = true -> (byteVal c - 48) mod 256 = digitVal c.
Proof.
  intros H. pose proof (isDigit_digitVal c H). unfold digitVal in *.
  apply Z.mod_small. lia.
Qed.

Lemma wrapU64_small z : 0 <= z <= maxUint64 -> wrapU64 z = z.
Proof.
  unfold wrapU64, maxUint64. intros H. apply Z.mod_small. lia.
Qed.

Lemma wrapI64_small z : inInt64 z -> wrapI64 z = z.
Proof.
  unfold wrapI64, inInt64, minInt64, maxInt64. intros H.
  rewrite Z.mod_small; lia.
Qed.

Lemma wrapI64_range z : inInt64 (wrapI64 z).
Proof.
  unfold wrapI64, inInt64, minInt64, maxInt64.
  pose proof (Z.mod_pos_bound (z + 2 ^ 63) (2 ^ 64) ltac:(lia)). lia.
Qed.

(** ** [strconv.Atoi] against the numeral it reads *)

Lemma maxUint64_eq : maxUint64 = 18446744073709551615.
Proof. reflexivity. Qed.

Lemma maxInt64_eq : maxInt64 = 9223372036854775807.
Proof. reflexivity. Qed.

Lemma minInt64_eq : minInt64 = -9223372036854775808.
Proof. reflexivity. Qed.

Lemma decimalValue_ge s :
  forall acc, 0 <= acc -> allDigits s = true -> acc <= decimalValue s acc.
Proof.
  induction s as [|c s IH]; intros acc Hacc Hd; cbn [decimalValue allDigits] in *.
  - lia.
  - apply andb_true_iff in Hd as [Hc Hs].
    pose proof (isDigit_digitVal c Hc).
    specialize (IH (acc * 10 + digitVal c) ltac:(lia) Hs). lia.
Qed.

Lemma decimalValue_lt s :
  forall acc, 0 <= acc -> allDigits s = true ->
    decimalValue s acc < (acc + 1) * 10 ^ Z.of_nat (String.length s).
Proof.
  induction s as [|c s IH]; intros acc Hacc Hd;
    cbn [decimalValue allDigits String.length] in *.
  - change (10 ^ Z.of_nat 0) with 1. lia.
  - apply andb_true_iff in Hd as [Hc Hs].
    pose proof (isDigit_digitVal c Hc).
    specialize (IH (acc * 10 + digitVal c) ltac:(lia) Hs).
    rewrite Nat2Z.inj_succ, Z.pow_succ_r by lia.
    assert (0 < 10 ^ Z.of_nat (String.length s)) by (apply Z.pow_pos_nonneg; lia).
    nia.
Qed.

Lemma atoiFastLoop_spec s :
  forall n,
    strconv.atoiFastLoop s n =
    if allDigits s then (decimalValue s n, None) else (0, Some strconv.ErrSyntax).
Proof.
  induction s as [|c s IH]; intros n; cbn [strconv.atoiFastLoop decimalValue allDigits].
  - reflexivity.
  - cbv zeta. rewrite fast_digit_test.
    destruct (isDigit c) eqn:Hc; cbn [negb andb].
    + rewrite (fast_digit_value c Hc). apply IH.
    + reflexivity.
Qed.

Lemma parseUintLoop_digits s :
  forall n, 0 <= n <= maxUint64 -> allDigits s = true ->
    strconv.parseUintLoop s n =
    if decimalValue s n <=? maxUint64 then (decimalValue s n, None)
    else (maxUint64, Some strconv.ErrRange).
Proof.
  induction s as [|c s IH]; intros n Hn Hd;
    cbn [strconv.parseUintLoop decimalValue allDigits] in *.
  - destruct (Z.leb_spec n maxUint64); [reflexivity | lia].
  - apply andb_true_iff in Hd as [Hc Hs]. rewrite Hc. cbv zeta.
    pose proof (isDigit_digitVal c Hc) as Hdv.
    pose proof (decimalValue_ge s (n * 10 + digitVal c) ltac:(lia) Hs) as Hge.
    change (maxUint64 / 10 + 1) with 1844674407370955162.
    rewrite maxUint64_eq in *.
    destruct (Z.leb_spec 1844674407370955162 n) as [Hcut|Hcut].
    + destruct (Z.leb_spec (decimalValue s (n * 10 + digitVal c)) 18446744073709551615);
        [lia | reflexivity].
    + rewrite (wrapU64_small (n * 10)) by (rewrite maxUint64_eq; lia).
      destruct (Z_le_gt_dec (n * 10 + digitVal c) 18446744073709551615) as [Hfit|Hover].
      * rewrite (wrapU64_small (n * 10 + digitVal c)) by (rewrite maxUint64_eq; lia).
        destruct (Z.ltb_spec (n * 10 + digitVal c) (n * 10)); [lia|].
        destruct (Z.ltb_spec 18446744073709551615 (n * 10 + digitVal c)); [lia|].
        cbn [orb]. apply IH; [lia | exact Hs].
      * assert (wrapU64 (n * 10 + digitVal c)
                = n * 10 + digitVal c - 18446744073709551616) as ->.
        { unfold wrapU64. symmetry.
          apply Z.mod_unique with (q := 1); change (2 ^ 64) with 18446744073709551616; lia. }
        destruct (Z.ltb_spec (n * 10 + digitVal c - 18446744073709551616) (n * 10)); [|lia].
        cbn [orb].
        destruct (Z.leb_spec (decimalValue s (n * 10 + digitVal c)) 18446744073709551615);
          [lia | reflexivity].
Qed.

Lemma parseUintLoop_error s :
  forall n v e, strconv.parseUintLoop s n = (v, Some e) ->
    match e with
    | strconv.ErrSyntax => v = 0
    | strconv.ErrRange => v = maxUint64
    end.
Proof.
  induction s as [|c s IH]; intros n v e; cbn [strconv.parseUintLoop].
  - discriminate.
  - cbv zeta.
    destruct (isDigit c); [|intros [=]; subst; reflexivity].
    destruct (_ <=? n); [intros [=]; subst; reflexivity|].
    destruct (_ || _); [intros [=]; subst; reflexivity|].
    apply IH.
Qed.

Lemma parseUintLoop_nondigits s :
  forall n, allDigits s = false -> (strconv.parseUintLoop s n).2 <> None.
Proof.
  induction s as [|c s IH]; intros n Hd; cbn [strconv.parseUintLoop allDigits] in *.
  - discriminate.
  - cbv zeta. destruct (isDigit c); cbn [andb] in Hd.
    + repeat match goal with
             | |- context [if ?b then _ else _] => destruct b
             end; try discriminate.
      apply IH, Hd.
    + discriminate.
Qed.

Lemma unsignedSyntax_nonneg s v : unsignedSyntax s = Some v -> 0 <= v.
Proof.
  destruct s as [|c s]; [discriminate|]. unfold unsignedSyntax.
  destruct (allDigits (String c s)) eqn:Hd; [|discriminate].
  intros [= <-]. apply (decimalValue_ge (String c s) 0); [lia | exact Hd].
Qed.

Lemma ParseUint_digits s v :
  unsignedSyntax s = Some v ->
  strconv.ParseUint s =
  if v <=? maxUint64 then (v, None) else (maxUint64, Some strconv.ErrRange).
Proof.
  destruct s as [|c s]; [discriminate|]. unfold unsignedSyntax, strconv.ParseUint.
  destruct (allDigits (String c s)) eqn:Hd; [|discriminate].
  intros [= <-]. apply (parseUintLoop_digits (String c s) 0); [rewrite maxUint64_eq; lia | exact Hd].
Qed.

Lemma ParseUint_nondigits s :
  unsignedSyntax s = None -> (strconv.ParseUint s).2 <> None.
Proof.
  destruct s as [|c s]; [discriminate|]. unfold unsignedSyntax, strconv.ParseUint.
  destruct (allDigits (String c s)) eqn:Hd; [discriminate|].
  intros _. apply parseUintLoop_nondigits, Hd.
Qed.

Lemma ParseUint_error s v e :
  strconv.ParseUint s = (v, Some e) ->
  match e with
  | strconv.ErrSyntax => v = 0
  | strconv.ErrRange => v = maxUint64
  end.
Proof.
  destruct s as [|c s]; unfold strconv.ParseUint.
  - intros [=]; subst; reflexivity.
  - apply parseUintLoop_error.
Qed.

Lemma ParseInt_unfold s :
  strconv.ParseInt s =
  match s with
  | EmptyString => (0, Some strconv.ErrSyntax)
  | String c s' =>
      if Ascii.eqb c "+" then parseIntTail false (strconv.ParseUint s')
      else if Ascii.eqb c "-" then parseIntTail true (strconv.ParseUint s')
      else parseIntTail false (strconv.ParseUint s)
  end.
Proof.
  destruct s as [|c s']; [reflexivity|]. unfold strconv.ParseInt, parseIntTail.
  destruct (Ascii.eqb c "+"); [reflexivity|].
  destruct (Ascii.eqb c "-"); reflexivity.
Qed.

Lemma parseIntTail_pos s v :
  unsignedSyntax s = Some v ->
  parseIntTail false (strconv.ParseUint s) = clampInt v.
Proof.
  intros Hs. pose proof (unsignedSyntax_nonneg s v Hs) as Hv.
  rewrite (ParseUint_digits s v Hs). unfold parseIntTail, clampInt.
  change (2 ^ (strconv.intSize - 1)) with 9223372036854775808.
  rewrite maxUint64_eq, maxInt64_eq, minInt64_eq. cbn [negb andb].
  destruct (Z.leb_spec v 18446744073709551615) as [Hfit|Hover].
  - destruct (Z.leb_spec 9223372036854775808 v);
      destruct (Z.ltb_spec 9223372036854775807 v); try lia; [reflexivity|].
    destruct (Z.ltb_spec v (-9223372036854775808)); [lia|].
    rewrite wrapI64_small; [reflexivity|].
    unfold inInt64. rewrite maxInt64_eq, minInt64_eq. lia.
  - destruct (Z.ltb_spec 9223372036854775807 v); [reflexivity | lia].
Qed.

Lemma parseIntTail_neg s v :
  unsignedSyntax s = Some v ->
  parseIntTail true (strconv.ParseUint s) = clampInt (- v).
Proof.
  intros Hs. pose proof (unsignedSyntax_nonneg s v Hs) as Hv.
  rewrite (ParseUint_digits s v Hs). unfold parseIntTail, clampInt.
  change (2 ^ (strconv.intSize - 1)) with 9223372036854775808.
  rewrite maxUint64_eq, maxInt64_eq, minInt64_eq. cbn [negb andb].
  destruct (Z.ltb_spec 9223372036854775807 (- v)); [lia|].
  destruct (Z.leb_spec v 18446744073709551615) as [Hfit|Hover].
  - destruct (Z.ltb_spec 9223372036854775808 v);
      destruct (Z.ltb_spec (- v) (-9223372036854775808)); try lia; [reflexivity|].
    f_equal.
    destruct (Z.eq_dec v 9223372036854775808) as [->|Hne]; [reflexivity|].
    rewrite (wrapI64_small v), (wrapI64_small (- v)); [reflexivity| |];
      unfold inInt64; rewrite maxInt64_eq, minInt64_eq; lia.
  - destruct (Z.ltb_spec (- v) (-9223372036854775808)); [reflexivity | lia].
Qed.

Lemma parseIntTail_nondigits neg s :
  unsignedSyntax s = None -> (parseIntTail neg (strconv.ParseUint s)).2 <> None.
Proof.
  intros Hs. pose proof (ParseUint_nondigits s Hs) as Hne.
  destruct (strconv.ParseUint s) as [v [e|]] eqn:Hr; [|contradiction].
  pose proof (ParseUint_error s v e Hr) as Hv.
  destruct e; subst v; unfold parseIntTail; [discriminate|].
  destruct neg; vm_compute; discriminate.
Qed.

Lemma parseIntTail_error neg r v e :
  parseIntTail neg r = (v, Some e) ->
  match e with
  | strconv.ErrSyntax => v = 0
  | strconv.ErrRange => v = maxInt64 \/ v = minInt64
  end.
Proof.
  unfold parseIntTail. destruct r as [un [[|]|]];
    try (intros [=]; subst; reflexivity); cbv zeta;
    (destruct (negb neg && _);
     [intros [=]; subst; left; reflexivity|];
     destruct (neg && _);
     [intros [=]; subst; right; reflexivity|];
     intros [=]).
Qed.

Lemma ParseInt_spec s n :
  intSyntax s = Some n -> strconv.ParseInt s = clampInt n.
Proof.
  rewrite ParseInt_unfold. destruct s as [|c s']; [discriminate|].
  unfold intSyntax.
  destruct (Ascii.eqb c "+"); [apply parseIntTail_pos|].
  destruct (Ascii.eqb c "-"); [|apply parseIntTail_pos].
  destruct (unsignedSyntax s') as [v|] eqn:Hv; [|discriminate].
  intros [= <-]. apply parseIntTail_neg, Hv.
Qed.

Lemma ParseInt_syntax s :
  intSyntax s = None -> (strconv.ParseInt s).2 <> None.
Proof.
  rewrite ParseInt_unfold. destruct s as [|c s']; [discriminate|].
  unfold intSyntax.
  destruct (Ascii.eqb c "+"); [apply parseIntTail_nondigits|].
  destruct (Ascii.eqb c "-"); [|apply parseIntTail_nondigits].
  destruct (unsignedSyntax s') as [v|] eqn:Hv; [discriminate|].
  intros _. apply parseIntTail_nondigits, Hv.
Qed.

Lemma ParseInt_error s v e :
  strconv.ParseInt s = (v, Some e) ->
  match e with
  | strconv.ErrSyntax => v = 0
  | strconv.ErrRange => v = maxInt64 \/ v = minInt64
  end.
Proof.
  rewrite ParseInt_unfold. destruct s as [|c s'].
  - intros [=]; subst; reflexivity.
  - destruct (Ascii.eqb c "+"); [apply parseIntTail_error|].
    destruct (Ascii.eqb c "-"); apply parseIntTail_error.
Qed.

(** On the fast path a numeral has at most 18 digits and cannot overflow. *)
Lemma fast_unsigned s v :
  unsignedSyntax s = Some v -> (String.length s <= 18)%nat ->
  strconv.atoiFastLoop s 0 = (v, None) /\ 0 <= v < 10 ^ 18.
Proof.
  intros Hs Hlen. pose proof (unsignedSyntax_nonneg s v Hs) as Hv.
  destruct s as [|c s]; [discriminate|]. unfold unsignedSyntax in Hs.
  rewrite atoiFastLoop_spec.
  destruct (allDigits (String c s)) eqn:Hd; [|discriminate].
  injection Hs as <-. split; [reflexivity|]. split; [exact Hv|].
  pose proof (decimalValue_lt (String c s) 0 ltac:(lia) Hd) as Hlt.
  assert (10 ^ Z.of_nat (String.length (String c s)) <= 10 ^ 18) as Hpow
    by (apply Z.pow_le_mono_r; lia).
  cbn [decimalValue] in Hlt. lia.
Qed.

Lemma fast_nondigits s :
  unsignedSyntax s = None -> s <> "" ->
  strconv.atoiFastLoop s 0 = (0, Some strconv.ErrSyntax).
Proof.
  intros Hs Hne. destruct s as [|c s]; [contradiction|]. unfold unsignedSyntax in Hs.
  rewrite atoiFastLoop_spec.
  destruct (allDigits (String c s)); [discriminate | reflexivity].
Qed.

Lemma clampInt_small n : - 10 ^ 18 < n < 10 ^ 18 -> clampInt n = (n, None).
Proof.
  intros Hn. unfold clampInt. rewrite maxInt64_eq, minInt64_eq.
  change (10 ^ 18) with 1000000000000000000 in Hn.
  destruct (Z.ltb_spec 9223372036854775807 n); [lia|].
  destruct (Z.ltb_spec n (-9223372036854775808)); [lia | reflexivity].
Qed.

Lemma length_lt_1 s : (Z.of_nat (String.length s) <? 1) = String.eqb s "".
Proof.
  destruct s as [|c s]; [reflexivity|]. cbn [String.length String.eqb].
  destruct (Z.ltb_spec (Z.of_nat (S (String.length s))) 1); [lia | reflexivity].
Qed.

(** [Atoi] on its fast path, by the first byte. *)
Lemma Atoi_fast c0 s' :
  (String.length (String c0 s') < 19)%nat ->
  strconv.Atoi (String c0 s') =
  if Ascii.eqb c0 "-" then
    match s' with
    | EmptyString => (0, Some strconv.ErrSyntax)
    | _ => match strconv.atoiFastLoop s' 0 with
           | (n, None) => (- n, None)
           | (_, Some e) => (0, Some e)
           end
    end
  else if Ascii.eqb c0 "+" then
    match s' with
    | EmptyString => (0, Some strconv.ErrSyntax)
    | _ => match strconv.atoiFastLoop s' 0 with
           | (n, None) => (n, None)
           | (_, Some e) => (0, Some e)
           end
    end
  else
    match strconv.atoiFastLoop (String c0 s') 0 with
    | (n, None) => (n, None)
    | (_, Some e) => (0, Some e)
    end.
Proof.
  intros Hlen. unfold strconv.Atoi.
  destruct (Z.ltb_spec 0 (Z.of_nat (String.length (String c0 s'))));
    [|cbn [String.length] in *; lia].
  destruct (Z.ltb_spec (Z.of_nat (String.length (String c0 s'))) 19); [|lia].
  cbn [andb]. cbv zeta.
  destruct (Ascii.eqb c0 "-") eqn:Hm; cbn [orb andb].
  - destruct s' as [|c1 s1]; [reflexivity|]. rewrite length_lt_1. reflexivity.
  - destruct (Ascii.eqb c0 "+") eqn:Hp; cbn [orb andb]; [|reflexivity].
    destruct s' as [|c1 s1]; [reflexivity|]. rewrite length_lt_1. reflexivity.
Qed.

Lemma Atoi_spec s n : intSyntax s = Some n -> strconv.Atoi s = clampInt n.
Proof.
  intros Hs.
  destruct (Nat.ltb_spec (String.length s) 19) as [Hlen|Hlen].
  - destruct s as [|c0 s']; [discriminate|].
    rewrite (Atoi_fast c0 s' Hlen). unfold intSyntax in Hs.
    cbn [String.length] in Hlen.
    destruct (Ascii.eqb c0 "-") eqn:Hm.
    + apply Ascii.eqb_eq in Hm as ->. cbn [Ascii.eqb Bool.eqb] in Hs.
      destruct (unsignedSyntax s') as [v|] eqn:Hv; [|discriminate].
      injection Hs as <-.
      destruct (fast_unsigned s' v Hv ltac:(lia)) as [-> Hb].
      rewrite clampInt_small by lia. destruct s'; [discriminate | reflexivity].
    + destruct (Ascii.eqb c0 "+") eqn:Hp.
      * destruct (fast_unsigned s' n Hs ltac:(lia)) as [-> Hb].
        rewrite clampInt_small by lia. destruct s'; [discriminate | reflexivity].
      * destruct (fast_unsigned (String c0 s') n Hs ltac:(cbn [String.length]; lia))
          as [-> Hb].
        rewrite clampInt_small by lia. reflexivity.
  - unfold strconv.Atoi.
    destruct (Z.ltb_spec (Z.of_nat (String.length s)) 19); [lia|].
    rewrite andb_false_r. apply ParseInt_spec, Hs.
Qed.

Lemma Atoi_syntax s : intSyntax s = None -> (strconv.Atoi s).2 <> None.
Proof.
  intros Hs.
  destruct (Nat.ltb_spec (String.length s) 19) as [Hlen|Hlen].
  - destruct s as [|c0 s']; [vm_compute; discriminate|].
    rewrite (Atoi_fast c0 s' Hlen). unfold intSyntax in Hs.
    destruct (Ascii.eqb c0 "-") eqn:Hm.
    + apply Ascii.eqb_eq in Hm as ->. cbn [Ascii.eqb Bool.eqb] in Hs.
      destruct (unsignedSyntax s') as [v|] eqn:Hv; [discriminate|].
      destruct s' as [|c1 s1]; [discriminate|].
      rewrite (fast_nondigits _ Hv) by discriminate. discriminate.
    + destruct (Ascii.eqb c0 "+") eqn:Hp.
      * destruct s' as [|c1 s1]; [discriminate|].
        rewrite (fast_nondigits _ Hs) by discriminate. discriminate.
      * rewrite (fast_nondigits _ Hs) by discriminate. discriminate.
  - unfold strconv.Atoi.
    destruct (Z.ltb_spec (Z.of_nat (String.length s)) 19); [lia|].
    rewrite andb_false_r. apply ParseInt_syntax, Hs.
Qed.

Lemma Atoi_error s v e :
  strconv.Atoi s = (v, Some e) ->
  match e with
  | strconv.ErrSyntax => v = 0
  | strconv.ErrRange => v = maxInt64 \/ v = minInt64
  end.
Proof.
  destruct (Nat.ltb_spec (String.length s) 19) as [Hlen|Hlen].
  - destruct s as [|c0 s']; [vm_compute; intros [=]; subst; reflexivity|].
    rewrite (Atoi_fast c0 s' Hlen).
    assert (forall t, match strconv.atoiFastLoop t 0 with
                      | (_, Some e') => e' = strconv.ErrSyntax
                      | (_, None) => True
                      end) as Hfast.
    { intros t. rewrite atoiFastLoop_spec. destruct (allDigits t); easy. }
    destruct (Ascii.eqb c0 "-"); [|destruct (Ascii.eqb c0 "+")];
      try (destruct s' as [|c1 s1]; [intros [=]; subst; reflexivity|]);
      match goal with
      | |- context [strconv.atoiFastLoop ?t 0] =>
          specialize (Hfast t); destruct (strconv.atoiFastLoop t 0) as [m [e'|]]
      end; intros [=]; subst; reflexivity.
  - unfold strconv.Atoi.
    destruct (Z.ltb_spec (Z.of_nat (String.length s)) 19); [lia|].
    rewrite andb_false_r. apply ParseInt_error.
Qed.

(** [Atoi] succeeds exactly on the signed decimal numerals that fit a Go
    [int], and then returns the numeral's value. *)
Theorem Atoi_ok_iff s n :
  strconv.Atoi s = (n, None) <-> intSyntax s = Some n /\ inInt64 n.
Proof.
  split.
  - intros Hok. destruct (intSyntax s) as [m|] eqn:Hs.
    + rewrite (Atoi_spec s m Hs) in Hok. unfold clampInt in Hok.
      destruct (Z.ltb_spec maxInt64 m); [discriminate|].
      destruct (Z.ltb_spec m minInt64); [discriminate|].
      injection Hok as <-. split; [reflexivity | split; assumption].
    + pose proof (Atoi_syntax s Hs) as Hne. rewrite Hok in Hne. contradiction.
  - intros [Hs [Hlo Hhi]]. rewrite (Atoi_spec s n Hs). unfold clampInt.
    destruct (Z.ltb_spec maxInt64 n); [lia|].
    destruct (Z.ltb_spec n minInt64); [lia | reflexivity].
Qed.

Lemma Atoi_valid s : (strconv.Atoi s).2 = None <-> validInt s.
Proof.
  unfold validInt. split.
  - destruct (strconv.Atoi s) as [n e] eqn:Hr. cbn [snd]. intros ->.
    exists n. apply Atoi_ok_iff, Hr.
  - intros [n Hn]. apply Atoi_ok_iff in Hn. rewrite Hn. reflexivity.
Qed.

Lemma Atoi_inInt64 s : inInt64 (strconv.Atoi s).1.
Proof.
  destruct (strconv.Atoi s) as [n [e|]] eqn:Hr; cbn [fst].
  - apply Atoi_error in Hr. destruct e; [subst n; vm_compute; split; discriminate|].
    destruct Hr as [-> | ->]; vm_compute; split; discriminate.
  - apply Atoi_ok_iff in Hr. apply Hr.
Qed.

(** ** [time.ParseDuration]: termination and results *)

Lemma leadingInt_length s :
  forall x v r, time.leadingInt s x = (v, r, false) ->
    (String.length r <= String.length s)%nat.
Proof.
  induction s as [|c s IH]; intros x v r; cbn [time.leadingInt].
  - intros [= _ <-]. lia.
  - destruct (negb (isDigit c)); [intros [= _ <-]; lia|].
    destruct (_ <? x); [discriminate|]. cbv zeta.
    destruct (_ <? _); [discriminate|].
    intros H. apply IH in H. cbn [String.length]. lia.
Qed.

Lemma leadingFraction_length s :
  forall x scale o v sc r, time.leadingFraction s x scale o = (v, sc, r) ->
    (String.length r <= String.length s)%nat.
Proof.
  induction s as [|c s IH]; intros x scale o v sc r; cbn [time.leadingFraction].
  - intros [= _ _ <-]. lia.
  - destruct (negb (isDigit c)); [intros [= _ _ <-]; lia|].
    cbn [String.length].
    destruct o; [intros H; apply IH in H; lia|].
    destruct (_ <? x); [intros H; apply IH in H; lia|]. cbv zeta.
    destruct (_ <? _); intros H; apply IH in H; lia.
Qed.

Lemma unitSpan_length s :
  forall u r, time.unitSpan s = (u, r) ->
    String.length s = (String.length u + String.length r)%nat.
Proof.
  induction s as [|c s IH]; intros u r; cbn [time.unitSpan].
  - intros [= <- <-]. reflexivity.
  - destruct (_ || _); [intros [= <- <-]; reflexivity|].
    destruct (time.unitSpan s) as [u' r'] eqn:Hs. intros [= <- <-].
    cbn [String.length]. rewrite (IH u' r' eq_refl). reflexivity.
Qed.

Lemma tail_length s : (String.length (time.tail s) <= String.length s)%nat.
Proof. destruct s; cbn [time.tail String.length]; lia. Qed.

(** The loop never runs out of fuel when it is given one unit per byte:
    every round consumes a unit name, which is not empty. *)
Lemma durationLoop_fuel fuel :
  forall s d, (String.length s <= fuel)%nat -> time.durationLoop fuel s d <> None.
Proof.
  induction fuel as [|fuel IH]; intros s d Hlen.
  - destruct s; [discriminate | cbn [String.length] in Hlen; lia].
  - destruct s as [|c0 s0]; [discriminate|].
    cbn [time.durationLoop].
    destruct (negb (_ || _)); [discriminate|]. cbv zeta.
    destruct (time.leadingInt (String c0 s0) 0) as [[v s1] err] eqn:Hint.
    destruct err; [discriminate|].
    apply leadingInt_length in Hint.
    destruct (time.startsWithDot s1);
      [ destruct (time.leadingFraction (time.tail s1) 0 (time.f64_of_uint64 1) false)
          as [[f scale] s2] eqn:Hfrac;
        apply leadingFraction_length in Hfrac;
        pose proof (tail_length s1)
      | ];
      cbv beta iota;
      (destruct (negb _ && negb _); [discriminate|]);
      lazymatch goal with
      | |- context [time.unitSpan ?t] =>
          destruct (time.unitSpan t) as [u s3] eqn:Hunit
      end;
      apply unitSpan_length in Hunit;
      (destruct u as [|cu u]; [discriminate|]);
      (destruct (time.unitMap (String cu u)) as [unit|]; [|discriminate]);
      (destruct (_ <? v); [discriminate|]);
      (destruct (_ && _); [discriminate|]);
      (destruct (_ <? _); [discriminate|]);
      apply IH; cbn [String.length] in *; lia.
Qed.

Corollary ParseDuration_fuel s d :
  time.durationLoop (String.length s) s d <> None.
Proof. apply durationLoop_fuel. lia. Qed.

Lemma ParseDuration_error s d e : time.ParseDuration s = (d, Some e) -> d = 0.
Proof.
  unfold time.ParseDuration.
  destruct (match s with
            | EmptyString => (false, s)
            | String c s' =>
                if Ascii.eqb c "-" || Ascii.eqb c "+" then (Ascii.eqb c "-", s')
                else (false, s)
            end) as [neg s1].
  destruct (String.eqb s1 "0"); [discriminate|].
  destruct (String.eqb s1 ""); [intros [= <- _]; reflexivity|].
  destruct (time.durationLoop (String.length s1) s1 0) as [[d'|e']|].
  - destruct neg; [discriminate|].
    destruct (_ <? d'); [intros [= <- _]; reflexivity | discriminate].
  - intros [= <- _]. reflexivity.
  - intros [= <- _]. reflexivity.
Qed.

Lemma ParseDuration_inInt64 s : inInt64 (time.ParseDuration s).1.
Proof.
  assert (inInt64 0) as H0 by (vm_compute; split; discriminate).
  unfold time.ParseDuration.
  destruct (match s with
            | EmptyString => (false, s)
            | String c s' =>
                if Ascii.eqb c "-" || Ascii.eqb c "+" then (Ascii.eqb c "-", s')
                else (false, s)
            end) as [neg s1].
  destruct (String.eqb s1 "0"); [exact H0|].
  destruct (String.eqb s1 ""); [exact H0|].
  destruct (time.durationLoop (String.length s1) s1 0) as [[d'|e']|]; try exact H0.
  destruct neg; [apply wrapI64_range|].
  destruct (_ <? d'); [exact H0 | apply wrapI64_range].
Qed.

(** ** [time.ParseDuration] against the duration strings *)

Lemma append_nil_l (s : string) : "" ++ s = s.
Proof. reflexivity. Qed.

Lemma append_cons (c : ascii) (s t : string) : String c s ++ t = String c (s ++ t).
Proof. reflexivity. Qed.

Lemma length_append (s t : string) :
  String.length (s ++ t) = (String.length s + String.length t)%nat.
Proof.
  induction s as [|c s IH]; [reflexivity|].
  rewrite append_cons. cbn [String.length]. rewrite IH. reflexivity.
Qed.

Lemma append_assoc_string (s t u : string) : (s ++ t) ++ u = s ++ t ++ u.
Proof.
  induction s as [|c s IH]; [reflexivity|].
  rewrite !append_cons, IH. reflexivity.
Qed.

Lemma leadingInt_app ip :
  forall rest x, allDigits ip = true -> startsNonDigit rest -> 0 <= x <= 2 ^ 63 ->
    time.leadingInt (ip ++ rest) x =
    if decimalValue ip x <=? 2 ^ 63 then (decimalValue ip x, rest, false)
    else (0, "", true).
Proof.
  induction ip as [|c ip IH]; intros rest x Hd Hr Hx;
    rewrite ?append_cons, ?append_nil_l; cbn [decimalValue].
  - destruct (Z.leb_spec x (2 ^ 63)); [|lia].
    destruct rest as [|c r]; cbn [time.leadingInt]; [reflexivity|].
    cbn in Hr. rewrite Hr. reflexivity.
  - cbn [allDigits] in Hd. apply andb_true_iff in Hd as [Hc Hd].
    cbn [time.leadingInt]. rewrite Hc. cbn [negb]. cbv zeta.
    pose proof (isDigit_digitVal c Hc) as Hv.
    change (2 ^ 63 / 10) with 922337203685477580.
    change (2 ^ 63) with 9223372036854775808 in *.
    destruct (Z.ltb_spec 922337203685477580 x) as [Hbig|Hsmall].
    + pose proof (decimalValue_ge ip (x * 10 + digitVal c) ltac:(lia) Hd).
      destruct (Z.leb_spec (decimalValue ip (x * 10 + digitVal c)) 9223372036854775808);
        [lia | reflexivity].
    + destruct (Z.ltb_spec 9223372036854775808 (x * 10 + digitVal c)) as [Hov|Hok].
      * pose proof (decimalValue_ge ip (x * 10 + digitVal c) ltac:(lia) Hd).
        destruct (Z.leb_spec (decimalValue ip (x * 10 + digitVal c)) 9223372036854775808);
          [lia | reflexivity].
      * apply IH; [exact Hd | exact Hr | lia].
Qed.

Lemma leadingInt_inv s :
  forall x v r, time.leadingInt s x = (v, r, false) ->
    exists ip, s = ip ++ r /\ allDigits ip = true /\ startsNonDigit r /\
               v = decimalValue ip x.
Proof.
  induction s as [|c s IH]; intros x v r; cbn [time.leadingInt].
  - intros [= <- <-]. exists "". repeat split.
  - destruct (isDigit c) eqn:Hc; cbn [negb].
    + destruct (_ <? x); [discriminate|]. cbv zeta.
      destruct (_ <? _); [discriminate|].
      intros H. apply IH in H as (ip & -> & Hd & Hr & ->).
      exists (String c ip). rewrite append_cons. cbn [allDigits decimalValue]. rewrite Hc, Hd.
      repeat split. exact Hr.
    + intros [= <- <-]. exists "". repeat split. cbn. exact Hc.
Qed.

Lemma leadingFraction_app fp :
  forall rest x sc o, allDigits fp = true -> startsNonDigit rest ->
    time.leadingFraction (fp ++ rest) x sc o =
    let '(f, sc', _) := time.leadingFraction fp x sc o in (f, sc', rest).
Proof.
  induction fp as [|c fp IH]; intros rest x sc o Hd Hr;
    rewrite ?append_cons, ?append_nil_l.
  - cbn [time.leadingFraction].
    destruct rest as [|c r]; cbn [time.leadingFraction]; [reflexivity|].
    cbn in Hr. rewrite Hr. reflexivity.
  - cbn [allDigits] in Hd. apply andb_true_iff in Hd as [Hc Hd].
    cbn [time.leadingFraction]. rewrite Hc. cbn [negb].
    destruct o; [apply IH; assumption|].
    destruct (_ <? x); [apply IH; assumption|]. cbv zeta.
    destruct (_ <? _); apply IH; assumption.
Qed.

Lemma leadingFraction_inv s :
  forall x sc o f sc' r, time.leadingFraction s x sc o = (f, sc', r) ->
    exists fp, s = fp ++ r /\ allDigits fp = true /\ startsNonDigit r.
Proof.
  induction s as [|c s IH]; intros x sc o f sc' r; cbn [time.leadingFraction].
  - intros [= _ _ <-]. exists "". repeat split.
  - destruct (isDigit c) eqn:Hc; cbn [negb].
    + assert (forall x sc o, time.leadingFraction s x sc o = (f, sc', r) ->
                exists fp, String c s = fp ++ r /\ allDigits fp = true /\
                           startsNonDigit r) as Hstep.
      { intros x0 sc0 o0 H. apply IH in H as (fp & -> & Hd & Hr).
        exists (String c fp). rewrite append_cons. cbn [allDigits]. rewrite Hc, Hd. auto. }
      destruct o; [apply Hstep|].
      destruct (_ <? x); [apply Hstep|]. cbv zeta.
      destruct (_ <? _); apply Hstep.
    + intros [= _ _ <-]. exists "". repeat split. cbn. exact Hc.
Qed.

Lemma unitSpan_app u :
  forall rest, allUnitBytes u = true -> startsNumber rest ->
    time.unitSpan (u ++ rest) = (u, rest).
Proof.
  induction u as [|c u IH]; intros rest Hu Hr;
    rewrite ?append_cons, ?append_nil_l.
  - destruct rest as [|c r]; cbn [time.unitSpan]; [reflexivity|].
    cbn in Hr. rewrite Hr. reflexivity.
  - cbn [allUnitBytes] in Hu. apply andb_true_iff in Hu as [Hc Hu].
    cbn [time.unitSpan]. unfold isUnitByte in Hc. apply negb_true_iff in Hc.
    rewrite Hc, (IH rest Hu Hr). reflexivity.
Qed.

Lemma unitSpan_inv s :
  forall u r, time.unitSpan s = (u, r) ->
    s = u ++ r /\ allUnitBytes u = true /\ startsNumber r.
Proof.
  induction s as [|c s IH]; intros u r; cbn [time.unitSpan].
  - intros [= <- <-]. repeat split.
  - destruct (Ascii.eqb c "." || isDigit c) eqn:Hc.
    + intros [= <- <-]. repeat split. cbn. exact Hc.
    + destruct (time.unitSpan s) as [u' r'] eqn:Hs. intros [= <- <-].
      destruct (IH u' r' eq_refl) as (-> & Hu & Hr).
      rewrite append_cons. cbn [allUnitBytes]. unfold isUnitByte. rewrite Hc, Hu. auto.
Qed.

Lemma unitMap_unitNanos u : time.unitMap u = unitNanos u.
Proof.
  unfold time.unitMap, unitNanos, durationUnits. cbn [assocUnit].
  repeat (destruct (String.eqb u _); [reflexivity|]). reflexivity.
Qed.

Lemma unitNanos_pos u unit : unitNanos u = Some unit -> 0 < unit.
Proof.
  unfold unitNanos, durationUnits. cbn [assocUnit].
  repeat (destruct (String.eqb u _); [intros [= <-]; lia|]). discriminate.
Qed.

Lemma length_app_neq (p r : string) :
  negb (Nat.eqb (String.length (p ++ r)) (String.length r)) = negb (String.eqb p "").
Proof.
  rewrite length_append. destruct p as [|c p]; cbn [String.length String.eqb negb].
  - rewrite Nat.eqb_refl. reflexivity.
  - destruct (Nat.eqb_spec (S (String.length p) + String.length r) (String.length r));
      [lia | reflexivity].
Qed.

Lemma unit_first u :
  allUnitBytes u = true -> u <> "" ->
  startsNonDigit u /\ time.startsWithDot u = false /\
  forall rest, startsNonDigit (u ++ rest) /\ time.startsWithDot (u ++ rest) = false.
Proof.
  intros Hu Hne. destruct u as [|c u]; [contradiction|].
  cbn [allUnitBytes] in Hu. apply andb_true_iff in Hu as [Hc _].
  unfold isUnitByte in Hc. apply negb_true_iff, orb_false_iff in Hc as [Hdot Hdig].
  repeat split; intros; rewrite ?append_cons; cbn; assumption.
Qed.

Lemma segmentForm_inv g :
  segmentForm g = true ->
  allDigits (intPart g) = true /\
  (forall fp, fracPart g = Some fp -> allDigits fp = true) /\
  hasDigit g = true /\ unitName g <> "" /\ allUnitBytes (unitName g) = true /\
  exists unit, unitNanos (unitName g) = Some unit.
Proof.
  unfold segmentForm. rewrite !andb_true_iff.
  intros [[[[[H1 H2] H3] H4] H5] H6]. repeat split; try assumption.
  - intros fp Hfp. rewrite Hfp in H2. exact H2.
  - intros Hu. rewrite Hu in H4. discriminate.
  - destruct (unitNanos (unitName g)) as [unit|]; [eauto | discriminate].
Qed.

(** A segment's text begins a number. *)
Lemma renderSegment_start g rest :
  segmentForm g = true ->
  exists c0 s0, renderSegment g ++ rest = String c0 s0 /\
                (Ascii.eqb c0 "." || isDigit c0) = true.
Proof.
  intros Hg. destruct (segmentForm_inv g Hg) as (Hip & Hfp & Hhas & _).
  unfold renderSegment, fracText, hasDigit in *.
  destruct (intPart g) as [|c ip].
  - destruct (fracPart g) as [fp|]; [|discriminate].
    exists "."%char. eexists. split; [reflexivity | reflexivity].
  - cbn [allDigits] in Hip. apply andb_true_iff in Hip as [Hc _].
    exists c. eexists. rewrite !append_cons. split; [reflexivity|].
    rewrite Hc. apply orb_true_r.
Qed.

Lemma render_start segs :
  forallb segmentForm segs = true -> startsNumber (render segs).
Proof.
  destruct segs as [|g rest]; [intros _; exact I|].
  cbn [forallb render]. intros H. apply andb_true_iff in H as [Hg _].
  destruct (renderSegment_start g (render rest) Hg) as (c0 & s0 & -> & Hc).
  exact Hc.
Qed.

Lemma whole_bound v unit :
  0 <= v -> 0 < unit -> (2 ^ 63 / unit <? v) = (2 ^ 63 <? v * unit).
Proof.
  intros Hv Hu.
  destruct (Z.ltb_spec (2 ^ 63 / unit) v) as [H|H];
    destruct (Z.ltb_spec (2 ^ 63) (v * unit)) as [H'|H']; try reflexivity; exfalso.
  - assert (v <= 2 ^ 63 / unit) by (apply Z.div_le_lower_bound; lia). lia.
  - assert (2 ^ 63 / unit < v) by (apply Z.div_lt_upper_bound; lia). lia.
Qed.

Lemma render_norm g rest :
  renderSegment g ++ rest =
  intPart g ++
  match fracPart g with
  | Some fp => String "." (fp ++ unitName g ++ rest)
  | None => unitName g ++ rest
  end.
Proof.
  unfold renderSegment, fracText. destruct (fracPart g) as [fp|].
  - rewrite !append_assoc_string. reflexivity.
  - rewrite !append_assoc_string. reflexivity.
Qed.

(** One round of the loop on a well-formed segment. *)
Lemma durationLoop_segment fuel g rest d v :
  segmentForm g = true -> startsNumber rest ->
  segmentNanos g = Some v ->
  (2 ^ 63 <? wrapU64 (d + v)) = false ->
  time.durationLoop (S fuel) (renderSegment g ++ rest) d
  = time.durationLoop fuel rest (wrapU64 (d + v)).
Proof.
  intros Hg Hrest Hv Hd.
  destruct (renderSegment_start g rest Hg) as (c0 & s0 & Hs & Hc0).
  destruct (segmentForm_inv g Hg) as (Hip & Hfp & Hhas & Hune & Hub & unit & Hunit).
  pose proof (unitNanos_pos _ _ Hunit) as Hpos.
  pose proof (decimalValue_ge (intPart g) 0 ltac:(lia) Hip) as Hnn.
  unfold segmentNanos in Hv. rewrite Hunit in Hv. cbv zeta in Hv.
  destruct (Z.ltb_spec (2 ^ 63) (decimalValue (intPart g) 0 * unit)) as [|Hwhole];
    [discriminate|].
  assert (decimalValue (intPart g) 0 <= 2 ^ 63) as Hint by nia.
  destruct (unit_first _ Hub Hune) as (_ & _ & Hufirst).
  set (mid := match fracPart g with
              | Some fp => String "." (fp ++ unitName g ++ rest)
              | None => unitName g ++ rest
              end).
  assert (startsNonDigit mid) as Hmid.
  { unfold mid. destruct (fracPart g); [reflexivity | apply Hufirst]. }
  assert (time.leadingInt (String c0 s0) 0
          = (decimalValue (intPart g) 0, mid, false)) as Hli.
  { rewrite <- Hs, render_norm. fold mid.
    rewrite (leadingInt_app (intPart g) mid 0 Hip Hmid) by lia.
    destruct (Z.leb_spec (decimalValue (intPart g) 0) (2 ^ 63)); [reflexivity | lia]. }
  assert (negb (Nat.eqb (String.length (String c0 s0)) (String.length mid))
          = negb (String.eqb (intPart g) "")) as Hpre.
  { rewrite <- Hs, render_norm. fold mid. apply length_app_neq. }
  rewrite Hs. cbn [time.durationLoop]. rewrite Hc0. cbn [negb]. cbv zeta.
  rewrite Hli. cbv beta iota. rewrite Hpre.
  assert (wrapU64 (decimalValue (intPart g) 0 * unit)
          = decimalValue (intPart g) 0 * unit) as Hw
    by (apply wrapU64_small; rewrite maxUint64_eq;
        change (2 ^ 63) with 9223372036854775808 in *; nia).
  unfold mid in *. clear mid. unfold hasDigit in Hhas.
  destruct (fracPart g) as [fp|] eqn:Hfr.
  - cbn [time.startsWithDot time.tail Ascii.eqb Bool.eqb]. cbv zeta.
    specialize (Hfp fp eq_refl).
    rewrite (leadingFraction_app fp (unitName g ++ rest) 0 _ false Hfp (proj1 (Hufirst rest))).
    unfold fractionNanos in Hv.
    destruct (time.leadingFraction fp 0 (time.f64_of_uint64 1) false)
      as [[f scale] r0] eqn:Hlf.
    rewrite length_app_neq, <- negb_orb, Hhas. cbn [negb].
    rewrite (unitSpan_app _ rest Hub Hrest).
    destruct (unitName g) as [|cu u] eqn:Hu; [contradiction|].
    rewrite unitMap_unitNanos, Hunit.
    rewrite (whole_bound _ _ Hnn Hpos).
    destruct (Z.ltb_spec (2 ^ 63) (decimalValue (intPart g) 0 * unit)); [lia|].
    rewrite Hw.
    destruct (0 <? f) eqn:Hf; cbn [andb].
    + destruct (2 ^ 63 <? _) eqn:Hov in Hv; [discriminate|].
      injection Hv as <-. rewrite Hov, Hd. reflexivity.
    + rewrite Z.add_0_r, Hw in Hv.
      destruct (Z.ltb_spec (2 ^ 63) (decimalValue (intPart g) 0 * unit)); [lia|].
      injection Hv as <-. rewrite Hd. reflexivity.
  - rewrite orb_false_r in Hhas. rewrite Hhas.
    rewrite (proj2 (Hufirst rest)). cbv beta iota. cbn [negb andb].
    rewrite (unitSpan_app _ rest Hub Hrest).
    destruct (unitName g) as [|cu u] eqn:Hu; [contradiction|].
    rewrite unitMap_unitNanos, Hunit.
    rewrite (whole_bound _ _ Hnn Hpos).
    destruct (Z.ltb_spec (2 ^ 63) (decimalValue (intPart g) 0 * unit)); [lia|].
    rewrite Hw. change (0 <? 0) with false. cbn [andb].
    destruct (Z.ltb_spec (2 ^ 63) (decimalValue (intPart g) 0 * unit)); [lia|].
    injection Hv as <-. rewrite Hd. reflexivity.
Qed.

(** One round of the loop that goes on reads a well-formed segment. *)
Lemma durationLoop_inv fuel s d d' :
  s <> "" ->
  time.durationLoop (S fuel) s d = Some (inl d') ->
  exists g rest v,
    s = renderSegment g ++ rest /\ segmentForm g = true /\ startsNumber rest /\
    segmentNanos g = Some v /\ (2 ^ 63 <? wrapU64 (d + v)) = false /\
    time.durationLoop fuel rest (wrapU64 (d + v)) = Some (inl d').
Proof.
  intros Hne. destruct s as [|c0 s0]; [contradiction|]. clear Hne.
  cbn [time.durationLoop].
  destruct (negb (Ascii.eqb c0 "." || isDigit c0)); [discriminate|]. cbv zeta.
  destruct (time.leadingInt (String c0 s0) 0) as [[v s1] err] eqn:Hli.
  destruct err; [discriminate|].
  destruct (leadingInt_inv _ _ _ _ Hli) as (ip & Hs & Hip & Hs1 & ->).
  rewrite Hs, length_app_neq.
  pose proof (decimalValue_ge ip 0 ltac:(lia) Hip) as Hnn.
  assert (forall fr f scale s2 post,
    s1 = match fr with Some fp => String "." (fp ++ s2) | None => s2 end ->
    post = match fr with Some fp => negb (String.eqb fp "") | None => false end ->
    match fr with
    | Some fp => allDigits fp = true /\
        exists r0, time.leadingFraction fp 0 (time.f64_of_uint64 1) false = (f, scale, r0)
    | None => f = 0
    end ->
    (if negb (negb (String.eqb ip "")) && negb post
     then Some (inr time.ErrInvalidDuration)
     else
       let '(u, s3) := time.unitSpan s2 in
       match u with
       | EmptyString => Some (inr time.ErrMissingUnit)
       | _ =>
           match time.unitMap u with
           | None => Some (inr (time.ErrUnknownUnit u))
           | Some unit =>
               if 2 ^ 63 / unit <? decimalValue ip 0
               then Some (inr time.ErrInvalidDuration)
               else
                 let v := wrapU64 (decimalValue ip 0 * unit) in
                 let v' :=
                   if 0 <? f then
                     wrapU64 (v + time.uint64_of_f64
                       (time.f64_mul (time.f64_of_uint64 f)
                          (time.f64_div (time.f64_of_uint64 unit) scale)))
                   else v in
                 if (0 <? f) && (2 ^ 63 <? v') then Some (inr time.ErrInvalidDuration)
                 else
                   let d := wrapU64 (d + v') in
                   if 2 ^ 63 <? d then Some (inr time.ErrInvalidDuration)
                   else time.durationLoop fuel s3 d
           end
       end) = Some (inl d') ->
    exists g rest v,
      ip ++ s1 = renderSegment g ++ rest /\ segmentForm g = true /\
      startsNumber rest /\ segmentNanos g = Some v /\
      (2 ^ 63 <? wrapU64 (d + v)) = false /\
      time.durationLoop fuel rest (wrapU64 (d + v)) = Some (inl d')) as Hgen.
  { intros fr f scale s2 post Hs1' Hpost Hfr.
    destruct (negb (negb (String.eqb ip "")) && negb post) eqn:Hdig; [discriminate|].
    destruct (time.unitSpan s2) as [u s3] eqn:Hus.
    destruct (unitSpan_inv _ _ _ Hus) as (Hs2 & Hub & Hs3).
    destruct u as [|cu u']; [discriminate|]. cbv beta iota.
    set (u := String cu u') in *.
    assert (negb (String.eqb u "") = true) as Hune by reflexivity.
    rewrite unitMap_unitNanos.
    destruct (unitNanos u) as [unit|] eqn:Hunit; [|discriminate].
    pose proof (unitNanos_pos _ _ Hunit) as Hpos.
    rewrite (whole_bound _ _ Hnn Hpos).
    destruct (Z.ltb_spec (2 ^ 63) (decimalValue ip 0 * unit)) as [|Hwhole];
      [discriminate|].
    assert (wrapU64 (decimalValue ip 0 * unit) = decimalValue ip 0 * unit) as Hw
      by (apply wrapU64_small; rewrite maxUint64_eq;
          change (2 ^ 63) with 9223372036854775808 in *; nia).
    cbv zeta. rewrite Hw. intros Hloop.
    exists (mkSegment ip fr u), s3.
    assert (segmentForm (mkSegment ip fr u) = true) as Hform.
    { unfold segmentForm, hasDigit. cbn [intPart fracPart unitName].
      rewrite Hip, Hub, Hunit, Hune. cbn [andb]. subst post.
      destruct fr as [fp|].
      - destruct Hfr as [-> _]. cbn [andb]. rewrite !andb_true_r.
        rewrite <- negb_orb in Hdig. apply negb_false_iff in Hdig. exact Hdig.
      - cbn [andb]. rewrite !andb_true_r. cbn [negb] in Hdig.
        rewrite andb_true_r in Hdig. apply negb_false_iff in Hdig.
        rewrite Hdig. reflexivity. }
    assert (ip ++ s1 = renderSegment (mkSegment ip fr u) ++ s3) as Htext.
    { rewrite render_norm. cbn [intPart fracPart unitName]. rewrite Hs1', Hs2.
      destruct fr; reflexivity. }
    unfold segmentNanos. cbn [intPart fracPart unitName]. rewrite Hunit. cbv zeta.
    destruct (Z.ltb_spec (2 ^ 63) (decimalValue ip 0 * unit)); [lia|].
    destruct fr as [fp|].
    - destruct Hfr as (Hfp & r0 & Hlf). unfold fractionNanos. rewrite Hlf.
      destruct (0 <? f) eqn:Hf; cbn [andb] in Hloop.
      + destruct (2 ^ 63 <? wrapU64 _) eqn:Hov in Hloop; [discriminate|].
        rewrite Hov.
        destruct (2 ^ 63 <? wrapU64 (d + _)) eqn:Hd in Hloop; [discriminate|].
        eexists. repeat split; try eassumption.
      + rewrite Z.add_0_r, Hw.
        destruct (Z.ltb_spec (2 ^ 63) (decimalValue ip 0 * unit)); [lia|].
        destruct (2 ^ 63 <? wrapU64 (d + _)) eqn:Hd in Hloop; [discriminate|].
        eexists. repeat split; try eassumption.
    - subst f. change (0 <? 0) with false in Hloop. cbn [andb] in Hloop.
      destruct (Z.ltb_spec (2 ^ 63) (decimalValue ip 0 * unit)); [lia|].
      destruct (2 ^ 63 <? wrapU64 (d + _)) eqn:Hd in Hloop; [discriminate|].
      eexists. repeat split; try eassumption. }
  destruct (time.startsWithDot s1) eqn:Hdot.
  - destruct s1 as [|c1 s1']; [discriminate|]. cbn [time.startsWithDot] in Hdot.
    apply Ascii.eqb_eq in Hdot. subst c1. cbn [time.tail]. cbv zeta.
    destruct (time.leadingFraction s1' 0 (time.f64_of_uint64 1) false)
      as [[f scale] s2] eqn:Hlf.
    destruct (leadingFraction_inv _ _ _ _ _ _ _ Hlf) as (fp & -> & Hfp & Hs2).
    rewrite (leadingFraction_app fp s2 0 _ false Hfp Hs2) in Hlf.
    destruct (time.leadingFraction fp 0 (time.f64_of_uint64 1) false)
      as [[f' scale'] r0] eqn:Hlf'.
    injection Hlf as -> ->.
    rewrite length_app_neq.
    apply (Hgen (Some fp) f scale s2); [reflexivity | reflexivity |].
    split; [exact Hfp | eauto].
  - apply (Hgen None 0 (time.f64_of_uint64 1) s1 false); reflexivity.
Qed.

Lemma renderSegment_length g :
  segmentForm g = true -> (0 < String.length (renderSegment g))%nat.
Proof.
  intros Hg. destruct (renderSegment_start g "" Hg) as (c0 & s0 & Hs & _).
  apply (f_equal String.length) in Hs. rewrite length_append in Hs.
  cbn [String.length] in Hs. lia.
Qed.

Lemma totalNanos_loop segs :
  forall d d' fuel,
    forallb segmentForm segs = true -> totalNanos segs d = Some d' ->
    (String.length (render segs) <= fuel)%nat ->
    time.durationLoop fuel (render segs) d = Some (inl d').
Proof.
  induction segs as [|g rest IH]; intros d d' fuel Hform Htot Hlen.
  - cbn in Htot. injection Htot as <-. destruct fuel; reflexivity.
  - cbn [forallb] in Hform. apply andb_true_iff in Hform as [Hg Hrest].
    cbn [render] in *. rewrite length_append in Hlen.
    pose proof (renderSegment_length g Hg).
    destruct fuel as [|fuel]; [lia|].
    cbn [totalNanos] in Htot.
    destruct (segmentNanos g) as [v|] eqn:Hv; [|discriminate]. cbv zeta in Htot.
    destruct (2 ^ 63 <? wrapU64 (d + v)) eqn:Hd; [discriminate|].
    rewrite (durationLoop_segment fuel g (render rest) d v Hg
               (render_start rest Hrest) Hv Hd).
    apply IH; [exact Hrest | exact Htot | lia].
Qed.

Lemma loop_totalNanos fuel :
  forall s d d', time.durationLoop fuel s d = Some (inl d') ->
    exists segs, s = render segs /\ forallb segmentForm segs = true /\
                 totalNanos segs d = Some d'.
Proof.
  induction fuel as [|fuel IH]; intros s d d' Hloop.
  - destruct s; [|discriminate]. injection Hloop as <-. exists []. auto.
  - destruct (String.eqb_spec s "") as [->|Hne].
    + injection Hloop as <-. exists []. auto.
    + destruct (durationLoop_inv fuel s d d' Hne Hloop)
        as (g & rest & v & -> & Hg & _ & Hv & Hd & Hrest).
      destruct (IH _ _ _ Hrest) as (segs & -> & Hform & Htot).
      exists (g :: segs). cbn [render forallb totalNanos].
      rewrite Hg, Hform, Hv. cbv zeta. rewrite Hd. auto.
Qed.

Lemma render_nonempty segs :
  segs <> [] -> forallb segmentForm segs = true -> render segs <> "".
Proof.
  destruct segs as [|g rest]; [contradiction|]. intros _ Hform.
  cbn [forallb] in Hform. apply andb_true_iff in Hform as [Hg _].
  cbn [render]. destruct (renderSegment_start g (render rest) Hg) as (c0 & s0 & -> & _).
  discriminate.
Qed.

Lemma splitSign_code s :
  match s with
  | String c s' =>
      if Ascii.eqb c "-" || Ascii.eqb c "+" then (Ascii.eqb c "-", s')
      else (false, s)
  | EmptyString => (false, s)
  end = splitSign s.
Proof.
  destruct s as [|c s']; [reflexivity|]. unfold splitSign.
  destruct (Ascii.eqb c "-"); [reflexivity|]. destruct (Ascii.eqb c "+"); reflexivity.
Qed.

(** [time.ParseDuration] accepts exactly the valid duration strings. *)
Theorem ParseDuration_valid s : (time.ParseDuration s).2 = None <-> validDuration s.
Proof.
  unfold time.ParseDuration, validDuration. rewrite splitSign_code.
  destruct (splitSign s) as [neg body].
  destruct (String.eqb_spec body "0") as [->|Hzero]; [cbn; tauto|].
  destruct (String.eqb_spec body "") as [->|Hempty].
  - split; [discriminate|]. intros [H | (segs & d & Hne & Hb & Hform & _)];
      [discriminate|].
    exfalso. apply (render_nonempty segs Hne Hform). symmetry. exact Hb.
  - pose proof (ParseDuration_fuel body 0) as Hfuel.
    destruct (time.durationLoop (String.length body) body 0) as [[d|e]|] eqn:Hloop;
      [| |contradiction].
    + destruct (loop_totalNanos _ _ _ _ Hloop) as (segs & Hb & Hform & Htot).
      assert (segs <> []) as Hne by (intros ->; apply Hempty; exact Hb).
      assert (forall segs' d', body = render segs' ->
                forallb segmentForm segs' = true ->
                totalNanos segs' 0 = Some d' -> d' = d) as Huniq.
      { intros segs' d' Hb' Hform' Htot'.
        pose proof (totalNanos_loop segs' 0 d' (String.length body) Hform' Htot') as H.
        rewrite <- Hb' in H. rewrite Hloop in H.
        specialize (H ltac:(lia)). injection H as ->. reflexivity. }
      destruct neg.
      * split; [|intros _; reflexivity]. intros _. right. exists segs, d. auto 10.
      * destruct (Z.ltb_spec (2 ^ 63 - 1) d) as [Hbig|Hfit]; cbn [snd].
        -- split; [discriminate|].
           intros [H | (segs' & d' & _ & Hb' & Hform' & Htot' & [H|H])];
             [contradiction | discriminate |].
           rewrite (Huniq segs' d' Hb' Hform' Htot') in H.
           unfold maxInt64 in H. lia.
        -- split; [|intros _; reflexivity]. intros _. right. exists segs, d.
           unfold maxInt64. auto 10.
    + split; [discriminate|].
      intros [H | (segs' & d' & _ & Hb' & Hform' & Htot' & _)]; [contradiction|].
      pose proof (totalNanos_loop segs' 0 d' (String.length body) Hform' Htot') as H.
      rewrite <- Hb' in H. rewrite Hloop in H.
      specialize (H ltac:(lia)). discriminate.
Qed.

(** ** [readFromEnvironment], field by field *)

Ltac break_match :=
  match goal with
  | |- context [match ?x with _ => _ end] =>
      lazymatch x with
      | context [match _ with _ => _ end] => fail
      | _ => destruct x eqn:?
      end
  end.

Section Fields.

Variable DefaultTimeout : Z.
Implicit Types (env : gmap string string) (c : HTTPProxyConfig).

Lemma readHost_frame env c :
  verbose (readHost env c) = verbose c /\
  port (readHost env c) = port c /\
  timeout (readHost env c) = timeout c.
Proof. unfold readHost. repeat break_match; auto. Qed.

Lemma readVerbose_frame env c :
  host (readVerbose env c) = host c /\
  port (readVerbose env c) = port c /\
  timeout (readVerbose env c) = timeout c.
Proof. unfold readVerbose. repeat break_match; auto. Qed.

Lemma readPort_frame env c :
  verbose (readPort env c).1 = verbose c /\
  host (readPort env c).1 = host c /\
  timeout (readPort env c).1 = timeout c.
Proof. unfold readPort. repeat break_match; auto. Qed.

Lemma readTimeout_frame env c :
  verbose (readTimeout DefaultTimeout env c).1 = verbose c /\
  host (readTimeout DefaultTimeout env c).1 = host c /\
  port (readTimeout DefaultTimeout env c).1 = port c.
Proof. unfold readTimeout. repeat break_match; auto. Qed.

(** Each block reads one field of the record only. *)
Lemma readVerbose_cong env c c' :
  verbose c = verbose c' ->
  verbose (readVerbose env c) = verbose (readVerbose env c').
Proof.
  unfold readVerbose. intros H. rewrite <- H.
  repeat break_match; cbn; congruence.
Qed.

Lemma readPort_cong env c c' :
  port c = port c' ->
  port (readPort env c).1 = port (readPort env c').1 /\
  (readPort env c).2 = (readPort env c').2.
Proof.
  unfold readPort. intros H. rewrite <- H.
  repeat break_match; cbn; auto.
Qed.

Lemma readTimeout_cong env c c' :
  timeout c = timeout c' ->
  timeout (readTimeout DefaultTimeout env c).1
  = timeout (readTimeout DefaultTimeout env c').1 /\
  (readTimeout DefaultTimeout env c).2 = (readTimeout DefaultTimeout env c').2.
Proof.
  unfold readTimeout. intros H. rewrite <- H.
  repeat break_match; cbn; auto.
Qed.

Lemma rfe_host env c :
  host (readFromEnvironment DefaultTimeout env c).1 = host (readHost env c).
Proof.
  unfold readFromEnvironment.
  destruct (readPort env (readVerbose env (readHost env c))) as [c3 [e|]] eqn:Hp.
  - pose proof (readPort_frame env (readVerbose env (readHost env c))) as (_ & H & _).
    rewrite Hp in H. cbn [fst] in *. rewrite H.
    apply readVerbose_frame.
  - pose proof (readPort_frame env (readVerbose env (readHost env c))) as (_ & H & _).
    rewrite Hp in H. cbn [fst] in H.
    destruct (readTimeout_frame env c3) as (_ & -> & _). rewrite H.
    apply readVerbose_frame.
Qed.

Lemma rfe_verbose env c :
  verbose (readFromEnvironment DefaultTimeout env c).1 = verbose (readVerbose env c).
Proof.
  unfold readFromEnvironment.
  pose proof (readPort_frame env (readVerbose env (readHost env c))) as (H & _ & _).
  destruct (readPort env (readVerbose env (readHost env c))) as [c3 [e|]] eqn:Hp;
    cbn [fst] in *.
  - rewrite H. apply readVerbose_cong, readHost_frame.
  - destruct (readTimeout_frame env c3) as (-> & _ & _). rewrite H.
    apply readVerbose_cong, readHost_frame.
Qed.

Lemma port_before_readPort env c :
  port (readVerbose env (readHost env c)) = port c.
Proof.
  destruct (readVerbose_frame env (readHost env c)) as (_ & -> & _).
  apply readHost_frame.
Qed.

Lemma timeout_before_readPort env c :
  timeout (readVerbose env (readHost env c)) = timeout c.
Proof.
  destruct (readVerbose_frame env (readHost env c)) as (_ & _ & ->).
  apply readHost_frame.
Qed.

Lemma rfe_port env c :
  port (readFromEnvironment DefaultTimeout env c).1 = port (readPort env c).1.
Proof.
  unfold readFromEnvironment.
  destruct (readPort_cong env _ c (port_before_readPort env c)) as [H _].
  destruct (readPort env (readVerbose env (readHost env c))) as [c3 [e|]] eqn:Hp;
    cbn [fst] in *.
  - exact H.
  - destruct (readTimeout_frame env c3) as (_ & _ & ->). exact H.
Qed.

(** The error is the port's, or else the timeout's. *)
Lemma rfe_error env c :
  (readFromEnvironment DefaultTimeout env c).2 =
  match (readPort env c).2 with
  | Some e => Some e
  | None => (readTimeout DefaultTimeout env c).2
  end.
Proof.
  unfold readFromEnvironment.
  destruct (readPort_cong env _ c (port_before_readPort env c)) as [_ H].
  pose proof (readPort_frame env (readVerbose env (readHost env c))) as (_ & _ & Ht).
  rewrite timeout_before_readPort in Ht.
  destruct (readPort env (readVerbose env (readHost env c))) as [c3 [e|]] eqn:Hp;
    cbn [fst snd] in *; rewrite <- H.
  - reflexivity.
  - apply readTimeout_cong, Ht.
Qed.

(** The timeout is read only when the port did not fail. *)
Lemma rfe_timeout env c :
  timeout (readFromEnvironment DefaultTimeout env c).1 =
  match (readPort env c).2 with
  | Some _ => timeout c
  | None => timeout (readTimeout DefaultTimeout env c).1
  end.
Proof.
  unfold readFromEnvironment.
  destruct (readPort_cong env _ c (port_before_readPort env c)) as [_ H].
  pose proof (readPort_frame env (readVerbose env (readHost env c))) as (_ & _ & Ht).
  rewrite timeout_before_readPort in Ht.
  destruct (readPort env (readVerbose env (readHost env c))) as [c3 [e|]] eqn:Hp;
    cbn [fst snd] in *; rewrite <- H.
  - exact Ht.
  - apply readTimeout_cong, Ht.
Qed.

End Fields.

(** ** The blocks, case by case *)

Section Blocks.

Variable DefaultTimeout : Z.
Implicit Types (env : gmap string string) (c : HTTPProxyConfig).

Lemma eta c :
  {| verbose := verbose c; host := host c; port := port c; timeout := timeout c |} = c.
Proof. destruct c; reflexivity. Qed.

Lemma readHost_flag env c : host c <> "localhost" -> readHost env c = c.
Proof.
  intros H. unfold readHost. apply String.eqb_neq in H. rewrite H. reflexivity.
Qed.

Lemma readHost_env env c h :
  host c = "localhost" -> LookupEnv env EnvHost = Some h ->
  readHost env c = set_host h c.
Proof.
  intros H Hl. unfold readHost. apply String.eqb_eq in H. rewrite H, Hl. reflexivity.
Qed.

Lemma readHost_absent env c : LookupEnv env EnvHost = None -> readHost env c = c.
Proof. intros Hl. unfold readHost. rewrite Hl. destruct (String.eqb _ _); reflexivity. Qed.

Lemma readVerbose_flag env c : verbose c = true -> readVerbose env c = c.
Proof. intros H. unfold readVerbose. rewrite H. reflexivity. Qed.

Lemma readVerbose_env env c v :
  verbose c = false -> LookupEnv env EnvVerbose = Some v ->
  readVerbose env c = set_verbose (verboseValue v) c.
Proof. intros H Hl. unfold readVerbose. rewrite H, Hl. reflexivity. Qed.

Lemma readVerbose_absent env c :
  LookupEnv env EnvVerbose = None -> readVerbose env c = c.
Proof. intros Hl. unfold readVerbose. rewrite Hl. destruct (negb _); reflexivity. Qed.

Lemma readPort_flag env c : port c <> defaultPort -> readPort env c = (c, None).
Proof.
  intros H. unfold readPort. apply Z.eqb_neq in H. rewrite H. reflexivity.
Qed.

Lemma readPort_absent env c :
  LookupEnv env EnvPort = None -> readPort env c = (c, None).
Proof. intros Hl. unfold readPort. rewrite Hl. destruct (_ =? _); reflexivity. Qed.

Lemma readPort_env env c p :
  port c = defaultPort -> LookupEnv env EnvPort = Some p ->
  readPort env c =
  (set_port (strconv.Atoi p).1 c,
   match (strconv.Atoi p).2 with
   | Some _ => Some ("invalid port: " ++ p)%string
   | None => None
   end).
Proof.
  intros H Hl. unfold readPort. apply Z.eqb_eq in H. rewrite H, Hl.
  destruct (strconv.Atoi p) as [n [e|]]; reflexivity.
Qed.

Lemma readTimeout_flag env c :
  timeout c <> DefaultTimeout -> readTimeout DefaultTimeout env c = (c, None).
Proof.
  intros H. unfold readTimeout. apply Z.eqb_neq in H. rewrite H. reflexivity.
Qed.

Lemma readTimeout_absent env c :
  LookupEnv env EnvTimeout = None -> readTimeout DefaultTimeout env c = (c, None).
Proof. intros Hl. unfold readTimeout. rewrite Hl. destruct (_ =? _); reflexivity. Qed.

Lemma readTimeout_env env c t :
  timeout c = DefaultTimeout -> LookupEnv env EnvTimeout = Some t ->
  readTimeout DefaultTimeout env c =
  (set_timeout (time.ParseDuration t).1 c,
   match (time.ParseDuration t).2 with
   | Some _ => Some ("invalid timeout: " ++ t)%string
   | None => None
   end).
Proof.
  intros H Hl. unfold readTimeout. apply Z.eqb_eq in H. rewrite H, Hl.
  destruct (time.ParseDuration t) as [d [e|]]; reflexivity.
Qed.

(** The port block fails exactly on a consulted, invalid value. *)
Lemma readPort_error env c :
  (readPort env c).2 <> None <-> portRejected env c.
Proof.
  unfold portRejected. split.
  - intros Herr. destruct (Z.eq_dec (port c) defaultPort) as [Hp|Hp];
      [|rewrite readPort_flag in Herr by exact Hp; contradiction].
    destruct (LookupEnv env EnvPort) as [p|] eqn:Hl;
      [|rewrite readPort_absent in Herr by exact Hl; contradiction].
    split; [exact Hp|]. exists p. split; [reflexivity|].
    rewrite (readPort_env env c p Hp Hl) in Herr. cbn [snd] in Herr.
    intros Hv. apply Atoi_valid in Hv. rewrite Hv in Herr. contradiction.
  - intros (Hp & p & Hl & Hv). rewrite (readPort_env env c p Hp Hl). cbn [snd].
    destruct (strconv.Atoi p).2 eqn:He; [discriminate|].
    exfalso. apply Hv, Atoi_valid, He.
Qed.

Lemma readTimeout_error env c :
  (readTimeout DefaultTimeout env c).2 <> None <-> timeoutRejected DefaultTimeout env c.
Proof.
  unfold timeoutRejected. split.
  - intros Herr. destruct (Z.eq_dec (timeout c) DefaultTimeout) as [Hp|Hp];
      [|rewrite readTimeout_flag in Herr by exact Hp; contradiction].
    destruct (LookupEnv env EnvTimeout) as [t|] eqn:Hl;
      [|rewrite readTimeout_absent in Herr by exact Hl; contradiction].
    split; [exact Hp|]. exists t. split; [reflexivity|].
    rewrite (readTimeout_env env c t Hp Hl) in Herr. cbn [snd] in Herr.
    intros Hv. apply ParseDuration_valid in Hv. rewrite Hv in Herr. contradiction.
  - intros (Hp & t & Hl & Hv). rewrite (readTimeout_env env c t Hp Hl). cbn [snd].
    destruct (time.ParseDuration t).2 eqn:He; [discriminate|].
    exfalso. apply Hv, ParseDuration_valid, He.
Qed.

Lemma portRejected_dec env c : portRejected env c \/ (readPort env c).2 = None.
Proof.
  destruct (readPort env c).2 eqn:He; [left | right; reflexivity].
  apply readPort_error. rewrite He. discriminate.
Qed.

(** A record whose field already holds what a block produced is left as
    it is by that block. *)
Lemma readHost_fix env c c0 :
  host c = host (readHost env c0) -> readHost env c = c.
Proof.
  unfold readHost. intros H.
  destruct (String.eqb (host c) "localhost") eqn:Hc; [|reflexivity].
  apply String.eqb_eq in Hc.
  destruct (LookupEnv env EnvHost) as [h|] eqn:Hl; [|reflexivity].
  destruct (String.eqb (host c0) "localhost") eqn:Hc0.
  - cbn [host set_host] in H. rewrite <- H. unfold set_host. apply eta.
  - apply String.eqb_neq in Hc0. congruence.
Qed.

Lemma readVerbose_fix env c c0 :
  verbose c = verbose (readVerbose env c0) -> readVerbose env c = c.
Proof.
  unfold readVerbose. intros H.
  destruct (verbose c) eqn:Hc; [reflexivity|]. cbn [negb].
  destruct (LookupEnv env EnvVerbose) as [v|] eqn:Hl; [|reflexivity].
  destruct (verbose c0) eqn:Hc0; cbn [negb] in H.
  - rewrite Hc0 in H. discriminate.
  - cbn [verbose set_verbose] in H. rewrite <- H, <- Hc. unfold set_verbose. apply eta.
Qed.

Lemma readPort_fix env c c0 :
  (readPort env c0).2 = None -> port c = port (readPort env c0).1 ->
  readPort env c = (c, None).
Proof.
  intros Hok H.
  destruct (Z.eq_dec (port c) defaultPort) as [Hc|Hc]; [|apply readPort_flag, Hc].
  destruct (LookupEnv env EnvPort) as [p|] eqn:Hl; [|apply readPort_absent, Hl].
  destruct (Z.eq_dec (port c0) defaultPort) as [Hc0|Hc0].
  - rewrite (readPort_env env c0 p Hc0 Hl) in Hok, H. cbn [fst snd port set_port] in *.
    rewrite (readPort_env env c p Hc Hl).
    destruct (strconv.Atoi p).2; [discriminate|].
    rewrite <- H. unfold set_port. rewrite eta. reflexivity.
  - rewrite (readPort_flag env c0 Hc0) in H. cbn [fst] in H. congruence.
Qed.

Lemma readTimeout_fix env c c0 :
  (readTimeout DefaultTimeout env c0).2 = None ->
  timeout c = timeout (readTimeout DefaultTimeout env c0).1 ->
  readTimeout DefaultTimeout env c = (c, None).
Proof.
  intros Hok H.
  destruct (Z.eq_dec (timeout c) DefaultTimeout) as [Hc|Hc];
    [|apply readTimeout_flag, Hc].
  destruct (LookupEnv env EnvTimeout) as [t|] eqn:Hl; [|apply readTimeout_absent, Hl].
  destruct (Z.eq_dec (timeout c0) DefaultTimeout) as [Hc0|Hc0].
  - rewrite (readTimeout_env env c0 t Hc0 Hl) in Hok, H.
    cbn [fst snd timeout set_timeout] in *.
    rewrite (readTimeout_env env c t Hc Hl).
    destruct (time.ParseDuration t).2; [discriminate|].
    rewrite <- H. unfold set_timeout. rewrite eta. reflexivity.
  - rewrite (readTimeout_flag env c0 Hc0) in H. cbn [fst] in H. congruence.
Qed.

End Blocks.

(** ** The configuration-resolution properties *)

Section Resolution.

Variable DefaultTimeout : Z.
Implicit Types (env : gmap string string) (c : HTTPProxyConfig) (args : CommandLine).

Lemma flagParse_fields args :
  let c := flagParse args (init DefaultTimeout) in
  verbose c = default false (flagVerbose args) /\
  host c = default "localhost" (flagHost args) /\
  port c = default defaultPort (flagPort args) /\
  timeout c = default DefaultTimeout (flagTimeout args).
Proof.
  unfold flagParse, init.
  destruct (flagVerbose args), (flagHost args), (flagPort args), (flagTimeout args);
    cbn; auto.
Qed.

(** A field that differs from its default is returned as it was. *)
Lemma nondefault_kept env c :
  let r := (readFromEnvironment DefaultTimeout env c).1 in
  (host c <> "localhost" -> host r = host c) /\
  (port c <> defaultPort -> port r = port c) /\
  (verbose c <> false -> verbose r = verbose c) /\
  (timeout c <> DefaultTimeout -> timeout r = timeout c).
Proof.
  cbv zeta. repeat split; intros H.
  - rewrite rfe_host, readHost_flag by exact H. reflexivity.
  - rewrite rfe_port, readPort_flag by exact H. reflexivity.
  - rewrite rfe_verbose, readVerbose_flag; [reflexivity|].
    destruct (verbose c); [reflexivity | contradiction].
  - rewrite rfe_timeout.
    destruct (readPort env c).2; [reflexivity|].
    rewrite readTimeout_flag by exact H. reflexivity.
Qed.

(** A field that differs from its default makes its variable irrelevant:
    the record and the error are the same in any two environments that
    agree on the other three variables. *)
Lemma nondefault_ignores_variable env env' c :
  (host c <> "localhost" ->
   LookupEnv env' EnvVerbose = LookupEnv env EnvVerbose ->
   LookupEnv env' EnvPort = LookupEnv env EnvPort ->
   LookupEnv env' EnvTimeout = LookupEnv env EnvTimeout ->
   readFromEnvironment DefaultTimeout env' c = readFromEnvironment DefaultTimeout env c) /\
  (port c <> defaultPort ->
   LookupEnv env' EnvHost = LookupEnv env EnvHost ->
   LookupEnv env' EnvVerbose = LookupEnv env EnvVerbose ->
   LookupEnv env' EnvTimeout = LookupEnv env EnvTimeout ->
   readFromEnvironment DefaultTimeout env' c = readFromEnvironment DefaultTimeout env c) /\
  (verbose c <> false ->
   LookupEnv env' EnvHost = LookupEnv env EnvHost ->
   LookupEnv env' EnvPort = LookupEnv env EnvPort ->
   LookupEnv env' EnvTimeout = LookupEnv env EnvTimeout ->
   readFromEnvironment DefaultTimeout env' c = readFromEnvironment DefaultTimeout env c) /\
  (timeout c <> DefaultTimeout ->
   LookupEnv env' EnvHost = LookupEnv env EnvHost ->
   LookupEnv env' EnvVerbose = LookupEnv env EnvVerbose ->
   LookupEnv env' EnvPort = LookupEnv env EnvPort ->
   readFromEnvironment DefaultTimeout env' c = readFromEnvironment DefaultTimeout env c).
Proof.
  split; [|split; [|split]].
  - intros Hne Hv Hp Ht. unfold readFromEnvironment.
    rewrite !readHost_flag by exact Hne.
    unfold readVerbose, readPort, readTimeout. rewrite Hv, Hp, Ht. reflexivity.
  - intros Hne Hh Hv Ht. unfold readFromEnvironment.
    assert (readVerbose env' (readHost env' c) = readVerbose env (readHost env c)) as ->
      by (unfold readVerbose, readHost; rewrite Hh, Hv; reflexivity).
    rewrite !readPort_flag by (rewrite port_before_readPort; exact Hne).
    unfold readTimeout. rewrite Ht. reflexivity.
  - intros Hne Hh Hp Ht. unfold readFromEnvironment.
    assert (readHost env' c = readHost env c) as ->
      by (unfold readHost; rewrite Hh; reflexivity).
    assert (verbose (readHost env c) = true) as Hvb.
    { destruct (readHost_frame env c) as (-> & _).
      destruct (verbose c); [reflexivity | contradiction]. }
    rewrite !readVerbose_flag by exact Hvb.
    unfold readPort, readTimeout. rewrite Hp, Ht. reflexivity.
  - intros Hne Hh Hv Hp. unfold readFromEnvironment.
    assert (readVerbose env' (readHost env' c) = readVerbose env (readHost env c)) as ->
      by (unfold readVerbose, readHost; rewrite Hh, Hv; reflexivity).
    assert (readPort env' (readVerbose env (readHost env c))
            = readPort env (readVerbose env (readHost env c))) as ->
      by (unfold readPort; rewrite Hp; reflexivity).
    pose proof (readPort_frame env (readVerbose env (readHost env c))) as (_ & _ & Ht).
    rewrite timeout_before_readPort in Ht.
    destruct (readPort env (readVerbose env (readHost env c))) as [c3 [e|]];
      [reflexivity|].
    cbn [fst] in Ht. rewrite !readTimeout_flag by (rewrite Ht; exact Hne).
    reflexivity.
Qed.

Lemma sameExcept_others key env env' k :
  sameExcept key env env' -> k <> key -> LookupEnv env' k = LookupEnv env k.
Proof. intros H Hk. apply H, Hk. Qed.

(** C1. Flags win over the environment.  A field that differs from its
    compiled-in default (host "localhost", port 8080, verbose false,
    timeout [proxy.DefaultTimeout]) is left as it is by
    [readFromEnvironment], and its variable is not consulted: the record and
    the error returned are the same whatever that variable holds, a
    malformed value included.  Hence a flag value that differs from the
    default is the resolved value regardless of the environment. *)
Theorem flags_win_over_environment env c args :
  let r := (readFromEnvironment DefaultTimeout env c).1 in
  let r' := (resolve DefaultTimeout args env).1 in
  ((host c <> "localhost" -> host r = host c) /\
   (port c <> defaultPort -> port r = port c) /\
   (verbose c <> false -> verbose r = verbose c) /\
   (timeout c <> DefaultTimeout -> timeout r = timeout c)) /\
  ((host c <> "localhost" -> forall env', sameExcept EnvHost env env' ->
      readFromEnvironment DefaultTimeout env' c
      = readFromEnvironment DefaultTimeout env c) /\
   (port c <> defaultPort -> forall env', sameExcept EnvPort env env' ->
      readFromEnvironment DefaultTimeout env' c
      = readFromEnvironment DefaultTimeout env c) /\
   (verbose c <> false -> forall env', sameExcept EnvVerbose env env' ->
      readFromEnvironment DefaultTimeout env' c
      = readFromEnvironment DefaultTimeout env c) /\
   (timeout c <> DefaultTimeout -> forall env', sameExcept EnvTimeout env env' ->
      readFromEnvironment DefaultTimeout env' c
      = readFromEnvironment DefaultTimeout env c)) /\
  ((forall h, flagHost args = Some h -> h <> "localhost" ->
      host r' = h /\
      forall env', sameExcept EnvHost env env' ->
        resolve DefaultTimeout args env' = resolve DefaultTimeout args env) /\
   (forall n, flagPort args = Some n -> n <> defaultPort ->
      port r' = n /\
      forall env', sameExcept EnvPort env env' ->
        resolve DefaultTimeout args env' = resolve DefaultTimeout args env) /\
   (forall b, flagVerbose args = Some b -> b <> false ->
      verbose r' = b /\
      forall env', sameExcept EnvVerbose env env' ->
        resolve DefaultTimeout args env' = resolve DefaultTimeout args env) /\
   (forall d, flagTimeout args = Some d -> d <> DefaultTimeout ->
      timeout r' = d /\
      forall env', sameExcept EnvTimeout env env' ->
        resolve DefaultTimeout args env' = resolve DefaultTimeout args env)).
Proof.
  cbv zeta.
  assert (forall c0,
    (host c0 <> "localhost" -> forall env', sameExcept EnvHost env env' ->
       readFromEnvironment DefaultTimeout env' c0
       = readFromEnvironment DefaultTimeout env c0) /\
    (port c0 <> defaultPort -> forall env', sameExcept EnvPort env env' ->
       readFromEnvironment DefaultTimeout env' c0
       = readFromEnvironment DefaultTimeout env c0) /\
    (verbose c0 <> false -> forall env', sameExcept EnvVerbose env env' ->
       readFromEnvironment DefaultTimeout env' c0
       = readFromEnvironment DefaultTimeout env c0) /\
    (timeout c0 <> DefaultTimeout -> forall env', sameExcept EnvTimeout env env' ->
       readFromEnvironment DefaultTimeout env' c0
       = readFromEnvironment DefaultTimeout env c0)) as Hind.
  { intros c0. split; [|split; [|split]]; intros Hne env' Hsame;
      destruct (nondefault_ignores_variable env env' c0) as (Nh & Np & Nv & Nt);
      [apply Nh | apply Np | apply Nv | apply Nt]; try exact Hne;
      apply (sameExcept_others _ env env' _ Hsame); discriminate. }
  split; [apply nondefault_kept|]. split; [apply Hind|].
  unfold resolve.
  destruct (flagParse_fields args) as (Hv & Hh & Hp & Ht).
  destruct (nondefault_kept env (flagParse args (init DefaultTimeout)))
    as (Kh & Kp & Kv & Kt).
  destruct (Hind (flagParse args (init DefaultTimeout))) as (Ih & Ip & Iv & It).
  split; [|split; [|split]].
  - intros h Hf Hne. rewrite Hf in Hh. cbn in Hh.
    split; [rewrite Kh; congruence | apply Ih; congruence].
  - intros n Hf Hne. rewrite Hf in Hp. cbn in Hp.
    split; [rewrite Kp; congruence | apply Ip; congruence].
  - intros b Hf Hne. rewrite Hf in Hv. cbn in Hv.
    split; [rewrite Kv; congruence | apply Iv; congruence].
  - intros d Hf Hne. rewrite Hf in Ht. cbn in Ht.
    split; [rewrite Kt; congruence | apply It; congruence].
Qed.

(** C2. The silent override.  In a resolution that succeeds, a field
    that equals its compiled-in default when [readFromEnvironment] runs, be
    it because the user passed that very value as a flag, takes the value
    of its environment variable when that is present and valid: the
    resolved value is the environment's. *)
Theorem environment_overrides_default env c :
  (readFromEnvironment DefaultTimeout env c).2 = None ->
  let r := (readFromEnvironment DefaultTimeout env c).1 in
  (host c = "localhost" ->
   forall h, LookupEnv env EnvHost = Some h -> host r = h) /\
  (verbose c = false ->
   forall v, LookupEnv env EnvVerbose = Some v -> verbose r = verboseValue v) /\
  (port c = defaultPort ->
   forall p n, LookupEnv env EnvPort = Some p ->
     intSyntax p = Some n -> inInt64 n -> port r = n) /\
  (timeout c = DefaultTimeout ->
   forall t d, LookupEnv env EnvTimeout = Some t ->
     time.ParseDuration t = (d, None) -> timeout r = d).
Proof.
  intros Hnil. cbv zeta. rewrite rfe_error in Hnil.
  destruct (readPort env c).2 eqn:Hport; [discriminate|].
  split; [|split; [|split]].
  - intros H h Hl. rewrite rfe_host, (readHost_env env c h H Hl). reflexivity.
  - intros H v Hl. rewrite rfe_verbose, (readVerbose_env env c v H Hl). reflexivity.
  - intros H p n Hl Hs Hn. rewrite rfe_port, (readPort_env env c p H Hl).
    cbn [fst port set_port].
    assert (strconv.Atoi p = (n, None)) as -> by (apply Atoi_ok_iff; auto).
    reflexivity.
  - intros H t d Hl Hd. rewrite rfe_timeout, Hport.
    rewrite (readTimeout_env DefaultTimeout env c t H Hl), Hd. reflexivity.
Qed.

(** C3. Verbose parsing.  With the verbose field false and
    [TESLA_VERBOSE] present, the field becomes false exactly when the
    value is the string "false" or "0" and true for every other value
    (the empty string included); with the variable absent the field is
    left untouched. *)
Theorem verbose_parsing env c :
  let r := (readFromEnvironment DefaultTimeout env c).1 in
  (verbose c = false ->
   forall v, LookupEnv env EnvVerbose = Some v ->
     (verbose r = false <-> v = "false" \/ v = "0") /\
     (verbose r = true <-> v <> "false" /\ v <> "0")) /\
  (LookupEnv env EnvVerbose = None -> verbose r = verbose c).
Proof.
  cbv zeta. split.
  - intros H v Hl. rewrite rfe_verbose, (readVerbose_env env c v H Hl).
    cbn [verbose set_verbose]. unfold verboseValue.
    destruct (String.eqb_spec v "false") as [Hf|Hf];
      destruct (String.eqb_spec v "0") as [Hz|Hz]; cbn [negb andb];
      split; split; try tauto; try discriminate; try congruence; intuition congruence.
  - intros Hl. rewrite rfe_verbose, (readVerbose_absent env c Hl). reflexivity.
Qed.

Lemma init_fields :
  port (init DefaultTimeout) = defaultPort /\
  timeout (init DefaultTimeout) = DefaultTimeout /\
  host (init DefaultTimeout) = "localhost" /\
  verbose (init DefaultTimeout) = false.
Proof. repeat split. Qed.

(** The error outcome for an arbitrary record. *)
Lemma error_iff_rejected env c :
  (readFromEnvironment DefaultTimeout env c).2 <> None <->
  portRejected env c \/ timeoutRejected DefaultTimeout env c.
Proof.
  rewrite rfe_error, <- readPort_error, <- readTimeout_error.
  destruct (readPort env c).2; split; intros H.
  - left. discriminate.
  - discriminate.
  - right. exact H.
  - destruct H as [H|H]; [contradiction | exact H].
Qed.


(** C5, amended.  An invalid [TESLA_HTTP_PROXY_PORT], consulted because
    the port field is at its default, makes [readFromEnvironment] return
    an error without touching the field that is read after the port: the
    timeout is as it was before the call, even when
    [TESLA_HTTP_PROXY_TIMEOUT] is present.  Host and verbose are read
    before the port and hold what their blocks gave them; verbose is as it
    was before the call exactly when it was already true, or
    [TESLA_VERBOSE] is absent, or its value is "false" or "0". *)
Theorem invalid_port_keeps_timeout env c p :
  port c = defaultPort ->
  LookupEnv env EnvPort = Some p ->
  ~ validInt p ->
  let r := readFromEnvironment DefaultTimeout env c in
  r.2 = Some ("invalid port: " ++ p)%string /\
  timeout r.1 = timeout c /\
  host r.1 = host (readHost env c) /\
  verbose r.1 = verbose (readVerbose env c) /\
  (verbose r.1 = verbose c <->
   verbose c = true \/ LookupEnv env EnvVerbose = None \/
   exists v, LookupEnv env EnvVerbose = Some v /\ (v = "false" \/ v = "0")).
Proof.
  intros Hp Hl Hv. cbv zeta.
  assert ((readPort env c).2 = Some ("invalid port: " ++ p)%string) as Herr.
  { rewrite (readPort_env env c p Hp Hl). cbn [snd].
    destruct (strconv.Atoi p).2 eqn:He; [reflexivity|].
    exfalso. apply Hv, Atoi_valid, He. }
  split; [|split; [|split; [|split]]].
  - rewrite rfe_error, Herr. reflexivity.
  - rewrite rfe_timeout, Herr. reflexivity.
  - apply rfe_host.
  - apply rfe_verbose.
  - rewrite rfe_verbose.
    destruct (verbose c) eqn:Hvb.
    + rewrite readVerbose_flag by exact Hvb. rewrite Hvb. tauto.
    + destruct (LookupEnv env EnvVerbose) as [v|] eqn:Hlv.
      * rewrite (readVerbose_env env c v Hvb Hlv). cbn [verbose set_verbose].
        unfold verboseValue.
        destruct (String.eqb_spec v "false") as [Hf|Hf];
          destruct (String.eqb_spec v "0") as [Hz|Hz]; cbn [negb andb];
          split; intros H; try reflexivity; try discriminate.
        -- right; right. exists v. auto.
        -- right; right. exists v. auto.
        -- right; right. exists v. auto.
        -- destruct H as [H | [H | (v' & [= <-] & [H|H])]];
             [discriminate | discriminate | contradiction | contradiction].
      * rewrite readVerbose_absent by exact Hlv. rewrite Hvb. tauto.
Qed.

(** C6. Defaults preserved.  With none of the four variables present and
    no flag given, [readFromEnvironment] returns nil and the record holds
    the defaults: host "localhost", port 8080, timeout
    [proxy.DefaultTimeout], verbose false. *)
Theorem defaults_preserved env :
  LookupEnv env EnvHost = None ->
  LookupEnv env EnvPort = None ->
  LookupEnv env EnvTimeout = None ->
  LookupEnv env EnvVerbose = None ->
  resolve DefaultTimeout noFlags env =
  ({| verbose := false; host := "localhost"; port := 8080;
      timeout := DefaultTimeout |}, None).
Proof.
  intros Hh Hp Ht Hv. unfold resolve, readFromEnvironment.
  rewrite (readHost_absent env _ Hh), (readVerbose_absent env _ Hv),
    (readPort_absent env _ Hp), (readTimeout_absent _ env _ Ht).
  reflexivity.
Qed.

(** C7. Environment only.  From the all-default record, in an
    environment whose port and timeout variables are well-formed where
    present, [readFromEnvironment] returns nil and every variable that is
    present has been applied: the host is the host variable verbatim,
    verbose is false for "false" and "0" and true for every other value,
    the port is the number the port variable denotes in base 10, and the
    timeout is the duration [time.ParseDuration] reads from the timeout
    variable. *)
Theorem environment_only_resolution env :
  (forall p, LookupEnv env EnvPort = Some p -> validInt p) ->
  (forall t, LookupEnv env EnvTimeout = Some t -> validDuration t) ->
  let r := readFromEnvironment DefaultTimeout env (init DefaultTimeout) in
  r.2 = None /\
  (forall h, LookupEnv env EnvHost = Some h -> host r.1 = h) /\
  (forall v, LookupEnv env EnvVerbose = Some v ->
     (verbose r.1 = false <-> v = "false" \/ v = "0") /\
     (verbose r.1 = true <-> v <> "false" /\ v <> "0")) /\
  (forall p, LookupEnv env EnvPort = Some p -> intSyntax p = Some (port r.1)) /\
  (forall t, LookupEnv env EnvTimeout = Some t ->
     time.ParseDuration t = (timeout r.1, None)).
Proof.
  intros Hport Htime. cbv zeta.
  destruct init_fields as (Ip & It & Ih & Iv).
  assert ((readFromEnvironment DefaultTimeout env (init DefaultTimeout)).2 = None)
    as Hnil.
  { destruct (readFromEnvironment DefaultTimeout env (init DefaultTimeout)).2 eqn:He;
      [|reflexivity].
    assert (Some s <> None) as Hs by discriminate. rewrite <- He in Hs.
    apply error_iff_rejected in Hs as [(_ & p & Hl & Hv) | (_ & t & Hl & Hv)];
      exfalso; eauto. }
  split; [exact Hnil|].
  rewrite rfe_error in Hnil.
  destruct (readPort env (init DefaultTimeout)).2 eqn:Hpe; [discriminate|].
  split; [|split; [|split]].
  - intros h Hl. rewrite rfe_host, (readHost_env env _ h Ih Hl). reflexivity.
  - intros v Hl. rewrite rfe_verbose, (readVerbose_env env _ v Iv Hl).
    cbn [verbose set_verbose]. unfold verboseValue.
    destruct (String.eqb_spec v "false") as [Hf|Hf];
      destruct (String.eqb_spec v "0") as [Hz|Hz]; cbn [negb andb];
      split; split; try tauto; try discriminate; try congruence; intuition congruence.
  - intros p Hl. rewrite rfe_port, (readPort_env env _ p Ip Hl). cbn [fst port set_port].
    destruct (Hport p Hl) as (n & Hs & Hn).
    assert (strconv.Atoi p = (n, None)) as -> by (apply Atoi_ok_iff; auto).
    exact Hs.
  - intros t Hl. rewrite rfe_timeout, Hpe.
    rewrite (readTimeout_env DefaultTimeout env _ t It Hl). cbn [fst timeout set_timeout].
    specialize (Htime t Hl). apply ParseDuration_valid in Htime.
    destruct (time.ParseDuration t) as [d e]. cbn [fst snd] in *. subst e. reflexivity.
Qed.

Lemma rfe_fix env c c0 :
  (readFromEnvironment DefaultTimeout env c0).2 = None ->
  c = (readFromEnvironment DefaultTimeout env c0).1 ->
  readFromEnvironment DefaultTimeout env c = (c, None).
Proof.
  intros Hnil Hc.
  pose proof Hnil as Hnil'. rewrite rfe_error in Hnil'.
  destruct (readPort env c0).2 eqn:Hpe; [discriminate|].
  assert (host c = host (readHost env c0)) as Hh by (subst c; apply rfe_host).
  assert (verbose c = verbose (readVerbose env c0)) as Hv by (subst c; apply rfe_verbose).
  assert (port c = port (readPort env c0).1) as Hp by (subst c; apply rfe_port).
  assert (timeout c = timeout (readTimeout DefaultTimeout env c0).1) as Ht.
  { subst c. rewrite rfe_timeout, Hpe. reflexivity. }
  unfold readFromEnvironment.
  rewrite (readHost_fix env c c0 Hh), (readVerbose_fix env c c0 Hv),
    (readPort_fix env c c0 Hpe Hp).
  apply (readTimeout_fix DefaultTimeout env c c0 Hnil' Ht).
Qed.

(** C8, amended.  Idempotence on success: when [readFromEnvironment]
    returns nil, running it again in the same environment on the record
    it produced returns nil and leaves that record as it is. *)
Theorem idempotent_on_success env c :
  (readFromEnvironment DefaultTimeout env c).2 = None ->
  readFromEnvironment DefaultTimeout env (readFromEnvironment DefaultTimeout env c).1
  = readFromEnvironment DefaultTimeout env c.
Proof.
  intros Hnil.
  rewrite (rfe_fix env _ c Hnil eq_refl).
  destruct (readFromEnvironment DefaultTimeout env c) as [r e].
  cbn [fst snd] in *. subst e. reflexivity.
Qed.

(** C9, amended.  After a successful resolution the port is a Go [int],
    between [-2^63] and [2^63 - 1]: it is the flag's value, the default
    8080, or the number [TESLA_HTTP_PROXY_PORT] denotes.  No check
    against 0-65535 is made. *)
Theorem resolved_port_is_int args env :
  (forall n, flagPort args = Some n -> inInt64 n) ->
  (resolve DefaultTimeout args env).2 = None ->
  let r := (resolve DefaultTimeout args env).1 in
  inInt64 (port r) /\
  (flagPort args = Some (port r) \/
   port r = defaultPort \/
   exists p, LookupEnv env EnvPort = Some p /\ intSyntax p = Some (port r)).
Proof.
  intros Hflag Hnil. cbv zeta. unfold resolve in *.
  destruct (flagParse_fields args) as (_ & _ & Hp & _). cbv zeta in Hp.
  set (c := flagParse args (init DefaultTimeout)) in *.
  rewrite rfe_error in Hnil. rewrite rfe_port.
  destruct (Z.eq_dec (port c) defaultPort) as [Hd|Hd].
  - destruct (LookupEnv env EnvPort) as [p|] eqn:Hl.
    + rewrite (readPort_env env c p Hd Hl) in *. cbn [fst snd port set_port] in *.
      destruct (strconv.Atoi p) as [n [e|]] eqn:Ha; [discriminate|].
      cbn [fst]. apply Atoi_ok_iff in Ha as [Hs Hn].
      split; [exact Hn|]. right; right. exists p. auto.
    + rewrite (readPort_absent env c Hl). cbn [fst]. rewrite Hd.
      split; [vm_compute; split; discriminate | right; left; reflexivity].
  - rewrite (readPort_flag env c Hd). cbn [fst].
    destruct (flagPort args) as [n|] eqn:Hf; cbn in Hp.
    + split; [rewrite Hp; apply Hflag; reflexivity | left; congruence].
    + contradiction.
Qed.

(** C10, amended.  On a parse error the failing field holds what the
    parser returned with the error, not its prior value.  For an invalid
    [TESLA_HTTP_PROXY_PORT] that is 0 after a syntax error and the
    largest or smallest [int] after a range error, in both cases not the
    8080 the field held; for an invalid [TESLA_HTTP_PROXY_TIMEOUT] it is
    the zero duration, which differs from the prior value unless
    [proxy.DefaultTimeout] is itself zero. *)
Theorem failed_field_overwritten env c :
  let r := readFromEnvironment DefaultTimeout env c in
  (port c = defaultPort ->
   forall p, LookupEnv env EnvPort = Some p -> ~ validInt p ->
     r.2 = Some ("invalid port: " ++ p)%string /\
     port r.1 = (strconv.Atoi p).1 /\
     match (strconv.Atoi p).2 with
     | Some strconv.ErrSyntax => port r.1 = 0
     | Some strconv.ErrRange => port r.1 = maxInt64 \/ port r.1 = minInt64
     | None => False
     end /\
     port r.1 <> port c) /\
  (timeout c = DefaultTimeout ->
   (readPort env c).2 = None ->
   forall t, LookupEnv env EnvTimeout = Some t -> ~ validDuration t ->
     r.2 = Some ("invalid timeout: " ++ t)%string /\
     timeout r.1 = 0 /\
     (DefaultTimeout <> 0 -> timeout r.1 <> timeout c)).
Proof.
  cbv zeta. split.
  - intros Hp p Hl Hv.
    rewrite rfe_error, rfe_port, (readPort_env env c p Hp Hl).
    cbn [fst snd port set_port].
    destruct (strconv.Atoi p) as [n [e|]] eqn:Ha; cbn [fst snd].
    + apply Atoi_error in Ha. rewrite Hp.
      repeat split; try reflexivity.
      * destruct e; exact Ha.
      * destruct e; [subst n; discriminate|].
        destruct Ha as [-> | ->]; discriminate.
    + exfalso. apply Hv, Atoi_valid. rewrite Ha. reflexivity.
  - intros Ht Hport t Hl Hv.
    rewrite rfe_error, rfe_timeout, Hport,
      (readTimeout_env DefaultTimeout env c t Ht Hl).
    cbn [fst snd timeout set_timeout]. rewrite <- ParseDuration_valid in Hv.
    destruct (time.ParseDuration t) as [d [e|]] eqn:Hd; cbn [fst snd] in *.
    + apply ParseDuration_error in Hd. subst d.
      repeat split; try reflexivity. congruence.
    + contradiction.
Qed.

End Resolution.

(** ** The properties at concrete inputs *)

Lemma inInt64_small n : - 2 ^ 63 <= n <= 2 ^ 63 - 1 -> inInt64 n.
Proof. intros H. exact H. Qed.

Lemma sameExcept_insert key v (env : gmap string string) :
  sameExcept key env (<[key := v]> env).
Proof.
  intros k Hk. unfold LookupEnv. apply lookup_insert_ne. congruence.
Qed.

(** Every flag is given and differs from its default: the environment's
    values are not used, and a malformed port or timeout value in it goes
    unnoticed. *)
Lemma flags_win_witness :
  let c := flagParse flagArgs (init tenSeconds) in
  let r := (readFromEnvironment tenSeconds flagEnv c).1 in
  let r' := (resolve tenSeconds flagArgs flagEnv).1 in
  (host r = host c /\ port r = port c /\ verbose r = verbose c /\ timeout r = timeout c) /\
  (host r' = "flaghost" /\ port r' = 8888 /\ verbose r' = true /\
   timeout r' = 60 * time.Second) /\
  (resolve tenSeconds flagArgs (<[EnvTimeout := "notaduration"]> flagEnv)
   = resolve tenSeconds flagArgs flagEnv /\
   resolve tenSeconds flagArgs (<[EnvPort := "notanumber"]> flagEnv)
   = resolve tenSeconds flagArgs flagEnv /\
   readFromEnvironment tenSeconds (<[EnvVerbose := "false"]> flagEnv) c
   = readFromEnvironment tenSeconds flagEnv c /\
   readFromEnvironment tenSeconds (<[EnvHost := "otherhost"]> flagEnv) c
   = readFromEnvironment tenSeconds flagEnv c).
Proof.
  destruct (flags_win_over_environment tenSeconds flagEnv
              (flagParse flagArgs (init tenSeconds)) flagArgs)
    as ((Rh & Rp & Rv & Rt) & (Ih & Ip & Iv & It) & (Hh & Hp & Hv & Ht)).
  cbv zeta. split; [|split]; (split; [|split; [|split]]).
  - apply Rh. discriminate.
  - apply Rp. discriminate.
  - apply Rv. discriminate.
  - apply Rt. discriminate.
  - apply (Hh "flaghost"); [reflexivity | discriminate].
  - apply (Hp 8888); [reflexivity | discriminate].
  - apply (Hv true); [reflexivity | discriminate].
  - apply (Ht (60 * time.Second)); [reflexivity | discriminate].
  - apply (Ht (60 * time.Second)); [reflexivity | discriminate |].
    apply sameExcept_insert.
  - apply (Hp 8888); [reflexivity | discriminate |].
    apply sameExcept_insert.
  - apply Iv; [discriminate | apply sameExcept_insert].
  - apply Ih; [discriminate | apply sameExcept_insert].
Defined.

(** The user passes [-port 8080], the default; [TESLA_HTTP_PROXY_PORT=9090]
    overrides it all the same. *)
Lemma environment_overrides_default_witness :
  let c := flagParse (portFlag 8080) (init tenSeconds) in
  let r := (readFromEnvironment tenSeconds testEnv c).1 in
  (readFromEnvironment tenSeconds testEnv c).2 = None /\
  host r = "0.0.0.0" /\ verbose r = true /\ port r = 9090 /\
  timeout r = 30 * time.Second.
Proof.
  assert ((readFromEnvironment tenSeconds testEnv
             (flagParse (portFlag 8080) (init tenSeconds))).2 = None) as Hnil
    by (vm_compute; reflexivity).
  destruct (environment_overrides_default tenSeconds testEnv
              (flagParse (portFlag 8080) (init tenSeconds)) Hnil)
    as (Hh & Hv & Hp & Ht).
  cbv zeta. split; [exact Hnil|]. split; [|split; [|split]].
  - apply Hh; reflexivity.
  - apply (Hv eq_refl "true"). reflexivity.
  - apply (Hp eq_refl "9090"); [reflexivity | reflexivity |].
    apply inInt64_small. lia.
  - apply (Ht eq_refl "30s"); [reflexivity | vm_compute; reflexivity].
Defined.

Lemma verbose_parsing_witness :
  verbose (readFromEnvironment tenSeconds (<[EnvVerbose := ""]> ∅) (init tenSeconds)).1
  = true /\
  verbose (readFromEnvironment tenSeconds (<[EnvVerbose := "0"]> ∅) (init tenSeconds)).1
  = false /\
  verbose (readFromEnvironment tenSeconds ∅ (init tenSeconds)).1 = false.
Proof.
  split; [|split].
  - destruct (verbose_parsing tenSeconds (<[EnvVerbose := ""]> ∅) (init tenSeconds))
      as [H _].
    apply (H eq_refl ""); [reflexivity|]. split; discriminate.
  - destruct (verbose_parsing tenSeconds (<[EnvVerbose := "0"]> ∅) (init tenSeconds))
      as [H _].
    apply (H eq_refl "0"); [reflexivity|]. right. reflexivity.
  - destruct (verbose_parsing tenSeconds ∅ (init tenSeconds)) as [_ H].
    apply H. reflexivity.
Defined.

Lemma invalid_port_keeps_timeout_witness :
  let c := init tenSeconds in
  let r := readFromEnvironment tenSeconds (<[EnvPort := "notanumber"]>
             (<[EnvTimeout := "30s"]> ∅)) c in
  let r0 := readFromEnvironment tenSeconds (<[EnvPort := "notanumber"]>
              (<[EnvVerbose := "0"]> ∅)) c in
  (r.2 = Some "invalid port: notanumber" /\ timeout r.1 = tenSeconds /\
   verbose r.1 = false) /\
  (r0.2 = Some "invalid port: notanumber" /\ verbose r0.1 = false).
Proof.
  cbv zeta. split.
  - destruct (invalid_port_keeps_timeout tenSeconds
                (<[EnvPort := "notanumber"]> (<[EnvTimeout := "30s"]> ∅))
                (init tenSeconds) "notanumber")
      as (He & Ht & _ & _ & Hv).
    + reflexivity.
    + reflexivity.
    + intros (n & Hs & _). vm_compute in Hs. discriminate.
    + split; [exact He | split; [exact Ht |]].
      apply (proj2 Hv). right. left. reflexivity.
  - destruct (invalid_port_keeps_timeout tenSeconds
                (<[EnvPort := "notanumber"]> (<[EnvVerbose := "0"]> ∅))
                (init tenSeconds) "notanumber")
      as (He & _ & _ & _ & Hv).
    + reflexivity.
    + reflexivity.
    + intros (n & Hs & _). vm_compute in Hs. discriminate.
    + split; [exact He|].
      apply (proj2 Hv). right. right. exists "0".
      split; [reflexivity | right; reflexivity].
Defined.

Lemma defaults_preserved_witness :
  resolve tenSeconds noFlags (<["HOME" := "/root"]> ∅)
  = ({| verbose := false; host := "localhost"; port := 8080; timeout := tenSeconds |},
     None).
Proof.
  apply (defaults_preserved tenSeconds (<["HOME" := "/root"]> ∅)); reflexivity.
Defined.

(** "30s" is a duration string: one segment, 30 with the unit s. *)
Lemma thirty_seconds_valid : validDuration "30s".
Proof.
  right. exists [mkSegment "30" None "s"], (30 * time.Second).
  split; [discriminate|]. split; [reflexivity|]. split; [reflexivity|].
  split; [reflexivity|]. right. vm_compute. discriminate.
Qed.





Lemma environment_only_witness :
  let r := readFromEnvironment tenSeconds testEnv (init tenSeconds) in
  r.2 = None /\ host r.1 = "0.0.0.0" /\ verbose r.1 = true /\ port r.1 = 9090 /\
  timeout r.1 = 30 * time.Second.
Proof.
  destruct (environment_only_resolution tenSeconds testEnv)
    as (He & Hh & Hv & Hp & Ht).
  - intros p Hl. vm_compute in Hl. injection Hl as <-.
    exists 9090. split; [reflexivity | apply inInt64_small; lia].
  - intros t Hl. vm_compute in Hl. injection Hl as <-.
    exact thirty_seconds_valid.
  - cbv zeta. split; [|split; [|split; [|split]]].
    + exact He.
    + apply Hh. reflexivity.
    + destruct (Hv "true" ltac:(reflexivity)) as [_ Htrue].
      apply (proj2 Htrue). split; discriminate.
    + specialize (Hp "9090" ltac:(reflexivity)).
      symmetry. apply (inj Some). exact Hp.
    + specialize (Ht "30s" ltac:(reflexivity)).
      symmetry. transitivity (time.ParseDuration "30s").1;
        [vm_compute; reflexivity | rewrite Ht; reflexivity].
Defined.

Lemma idempotent_on_success_witness :
  readFromEnvironment tenSeconds testEnv
    (readFromEnvironment tenSeconds testEnv (init tenSeconds)).1
  = readFromEnvironment tenSeconds testEnv (init tenSeconds).
Proof.
  apply (idempotent_on_success tenSeconds testEnv (init tenSeconds)).
  vm_compute. reflexivity.
Defined.

Lemma resolved_port_is_int_witness :
  let r := (resolve tenSeconds (portFlag 70000) testEnv).1 in
  inInt64 (port r) /\
  (flagPort (portFlag 70000) = Some (port r) \/
   port r = defaultPort \/
   exists p, LookupEnv testEnv EnvPort = Some p /\ intSyntax p = Some (port r)).
Proof.
  apply (resolved_port_is_int tenSeconds (portFlag 70000) testEnv).
  - intros n [= <-]. apply inInt64_small. lia.
  - vm_compute. reflexivity.
Defined.

Lemma failed_field_overwritten_witness :
  let r1 := readFromEnvironment tenSeconds (<[EnvPort := "notanumber"]> ∅)
              (init tenSeconds) in
  let r2 := readFromEnvironment tenSeconds (<[EnvTimeout := "notaduration"]> ∅)
              (init tenSeconds) in
  (r1.2 = Some "invalid port: notanumber" /\ port r1.1 = 0) /\
  (r2.2 = Some "invalid timeout: notaduration" /\ timeout r2.1 = 0).
Proof.
  cbv zeta. split.
  - destruct (failed_field_overwritten tenSeconds (<[EnvPort := "notanumber"]> ∅)
                (init tenSeconds)) as [H _].
    destruct (H eq_refl "notanumber") as (He & _ & Hm & _).
    + reflexivity.
    + intros (n & Hs & _). vm_compute in Hs. discriminate.
    + change ((strconv.Atoi "notanumber").2) with (Some strconv.ErrSyntax) in Hm.
      split; [exact He | exact Hm].
  - destruct (failed_field_overwritten tenSeconds (<[EnvTimeout := "notaduration"]> ∅)
                (init tenSeconds)) as [_ H].
    destruct (H eq_refl eq_refl "notaduration") as (He & Hz & _).
    + reflexivity.
    + intros Hv. apply ParseDuration_valid in Hv. vm_compute in Hv. discriminate.
    + split; [exact He | exact Hz].
Defined.

(** *** Counterexamples *)

(** C5 as stated: the port variable is invalid and the call fails, yet
    verbose, false before the call, is true after it: [TESLA_VERBOSE] is
    read before the port. *)
Lemma verbose_set_before_invalid_port :
  let c := init tenSeconds in
  let r := readFromEnvironment tenSeconds badPortEnv c in
  port c = defaultPort /\
  LookupEnv badPortEnv EnvPort = Some "notanumber" /\
  strconv.Atoi "notanumber" = (0, Some strconv.ErrSyntax) /\
  r.2 = Some "invalid port: notanumber" /\
  verbose c = false /\
  verbose r.1 = true.
Proof. vm_compute. repeat split. Qed.

(** C8 as stated: the first run fails on the port and leaves 0 in the
    field; the second run, finding the port off its default, skips it,
    reads the timeout and returns nil. *)
Lemma second_run_differs_after_error :
  let c := init tenSeconds in
  let once := readFromEnvironment tenSeconds badPortEnv c in
  let twice := readFromEnvironment tenSeconds badPortEnv once.1 in
  once = ({| verbose := true; host := "localhost"; port := 0; timeout := tenSeconds |},
          Some "invalid port: notanumber") /\
  twice = ({| verbose := true; host := "localhost"; port := 0;
              timeout := 30 * time.Second |}, None) /\
  twice <> once.
Proof. vm_compute. repeat split. discriminate. Qed.

(** C9 as stated: resolution succeeds with a port outside 0-65535. *)
Lemma port_outside_range_accepted :
  resolve tenSeconds noFlags (<[EnvPort := "70000"]> ∅)
  = ({| verbose := false; host := "localhost"; port := 70000; timeout := tenSeconds |},
     None) /\
  resolve tenSeconds noFlags (<[EnvPort := "-1"]> ∅)
  = ({| verbose := false; host := "localhost"; port := -1; timeout := tenSeconds |},
     None) /\
  ~ (0 <= 70000 <= 65535) /\ ~ (0 <= -1 <= 65535).
Proof. repeat split; try (vm_compute; reflexivity); lia. Qed.

(** C10 as stated: a port value past the range of [int] is an error and
    leaves the largest [int] in the field, not 0. *)
Lemma out_of_range_port_not_zeroed :
  let r := readFromEnvironment tenSeconds (<[EnvPort := "9223372036854775808"]> ∅)
             (init tenSeconds) in
  r.2 = Some "invalid port: 9223372036854775808" /\
  port r.1 = 9223372036854775807 /\
  port r.1 <> 0.
Proof. vm_compute. repeat split. discriminate. Qed.

(** ** The startup sequence at a concrete input *)

Example main_bindFailure :
  main (10 * time.Second) bindFailure
  = ([CallNewConfig; CallRegisterCommandLineFlags; CallFlagParse;
      CallConfigReadFromEnvironment; CallPrivateKey; LogDebug "Creating proxy";
      CallProxyNew 10000; SetProxyTimeout (10 * time.Second);
      LogInfo "Listening on %s (HTTP, no TLS)" "localhost:9090";
      CallListenAndServe "localhost:9090";
      LogError "Server stopped: %s"
        "listen tcp 127.0.0.1:9090: bind: address already in use"],
     Exit 0).
Proof. vm_compute. reflexivity. Qed.

Example formatInt_samples :
  map formatInt [0; 7; 10; 8080; -1; 9223372036854775807; -9223372036854775808]
  = ["0"; "7"; "10"; "8080"; "-1"; "9223372036854775807"; "-9223372036854775808"].
Proof. vm_compute. reflexivity. Qed.

(** ** [%d] and [strconv.Atoi] *)

Lemma digitChar_digit d :
  0 <= d <= 9 ->
  isDigit (digitChar d) = true /\ digitVal (digitChar d) = d /\
  Ascii.eqb (digitChar d) "+" = false /\ Ascii.eqb (digitChar d) "-" = false.
Proof.
  intros H.
  assert (d = 0 \/ d = 1 \/ d = 2 \/ d = 3 \/ d = 4 \/ d = 5 \/ d = 6 \/ d = 7 \/
          d = 8 \/ d = 9) as Hd by lia.
  repeat (destruct Hd as [-> | Hd]; [vm_compute; auto|]).
  subst d. vm_compute. auto.
Qed.

Lemma last_digit u : 0 <= u -> 0 <= u - u / 10 * 10 <= 9.
Proof.
  intros H. pose proof (Z.div_mod u 10 ltac:(lia)).
  pose proof (Z.mod_pos_bound u 10 ltac:(lia)). lia.
Qed.

Lemma fmtDigits_value fuel :
  forall u buf, (0 < fuel)%nat -> 0 <= u < 10 ^ Z.of_nat fuel ->
    decimalValue (fmtDigits fuel u buf) 0 = decimalValue buf u.
Proof.
  induction fuel as [|fuel IH]; intros u buf Hf Hu; [lia|].
  cbn [fmtDigits]. rewrite Nat2Z.inj_succ, Z.pow_succ_r in Hu by lia.
  destruct (Z.leb_spec 10 u) as [Hbig|Hsmall].
  - cbv zeta.
    assert (0 < fuel)%nat as Hf'.
    { destruct fuel; [change (10 ^ Z.of_nat 0) with 1 in Hu; lia | lia]. }
    rewrite IH; [|exact Hf'|].
    + cbn [decimalValue].
      destruct (digitChar_digit _ (last_digit u ltac:(lia))) as (_ & -> & _).
      f_equal. lia.
    + split; [apply Z.div_pos; lia|]. apply Z.div_lt_upper_bound; lia.
  - cbn [decimalValue].
    destruct (digitChar_digit u ltac:(lia)) as (_ & -> & _). f_equal.
Qed.

Lemma fmtDigits_digits fuel :
  forall u buf, 0 <= u -> allDigits (fmtDigits fuel u buf) = allDigits buf.
Proof.
  induction fuel as [|fuel IH]; intros u buf Hu; [reflexivity|].
  cbn [fmtDigits]. destruct (Z.leb_spec 10 u) as [Hbig|Hsmall].
  - cbv zeta. rewrite IH by (apply Z.div_pos; lia). cbn [allDigits].
    destruct (digitChar_digit _ (last_digit u Hu)) as (-> & _). reflexivity.
  - cbn [allDigits]. destruct (digitChar_digit u ltac:(lia)) as (-> & _). reflexivity.
Qed.

Lemma fmtDigits_nonempty fuel :
  forall u buf, (fuel = O -> buf <> "") ->
    exists c rest, fmtDigits fuel u buf = String c rest.
Proof.
  induction fuel as [|fuel IH]; intros u buf Hbuf; cbn [fmtDigits].
  - destruct buf as [|c rest]; [exfalso; apply Hbuf; reflexivity | eauto].
  - destruct (10 <=? u); [|eauto]. cbv zeta. apply IH. discriminate.
Qed.

(** What [%d] writes for a non-negative number below [10^20] is a
    numeral of that number. *)
Lemma unsignedSyntax_fmtDigits u :
  0 <= u < 10 ^ 20 ->
  unsignedSyntax (fmtDigits 20 u "") = Some u /\
  exists c rest, fmtDigits 20 u "" = String c rest /\ isDigit c = true.
Proof.
  intros Hu.
  destruct (fmtDigits_nonempty 20 u "" ltac:(discriminate)) as (c & rest & Hs).
  pose proof (fmtDigits_digits 20 u "" ltac:(lia)) as Hd.
  pose proof (fmtDigits_value 20 u "" ltac:(lia) Hu) as Hv.
  rewrite Hs in *. split.
  - unfold unsignedSyntax. rewrite Hd, Hv. reflexivity.
  - exists c, rest. split; [reflexivity|].
    cbn [allDigits] in Hd. apply andb_true_iff in Hd. apply Hd.
Qed.

Lemma intSyntax_formatInt n : inInt64 n -> intSyntax (formatInt n) = Some n.
Proof.
  unfold inInt64. rewrite minInt64_eq, maxInt64_eq. intros Hn. unfold formatInt.
  destruct (Z.ltb_spec n 0) as [Hneg|Hpos]; cbv zeta.
  - rewrite wrapU64_small by (rewrite maxUint64_eq; lia).
    destruct (unsignedSyntax_fmtDigits (- n)) as [Hs _];
      [change (10 ^ 20) with 100000000000000000000; lia|].
    unfold intSyntax. cbn [Ascii.eqb Bool.eqb]. rewrite Hs. cbn [option_map].
    f_equal. lia.
  - destruct (unsignedSyntax_fmtDigits n) as [Hs (c & rest & Hc & Hdig)];
      [change (10 ^ 20) with 100000000000000000000; lia|].
    rewrite Hc in *. unfold intSyntax.
    assert (Ascii.eqb c "+" = false /\ Ascii.eqb c "-" = false) as [-> ->].
    { unfold isDigit in Hdig. apply andb_true_iff in Hdig as [H1 H2].
      apply Z.leb_le in H1, H2.
      split; apply Ascii.eqb_neq; intros ->; vm_compute in H1, H2; auto. }
    exact Hs.
Qed.

(** ** Further properties of the resolution *)

Section Further.

Variable DefaultTimeout : Z.
Implicit Types (env : gmap string string) (c : HTTPProxyConfig) (args : CommandLine).

(** X1. [readFromEnvironment] looks at four variables and nothing else:
    in two environments that agree on [TESLA_HTTP_PROXY_HOST],
    [TESLA_VERBOSE], [TESLA_HTTP_PROXY_PORT] and [TESLA_HTTP_PROXY_TIMEOUT]
    it returns the same record and the same error. *)
Theorem reads_only_four_variables env env' c :
  LookupEnv env EnvHost = LookupEnv env' EnvHost ->
  LookupEnv env EnvVerbose = LookupEnv env' EnvVerbose ->
  LookupEnv env EnvPort = LookupEnv env' EnvPort ->
  LookupEnv env EnvTimeout = LookupEnv env' EnvTimeout ->
  readFromEnvironment DefaultTimeout env c = readFromEnvironment DefaultTimeout env' c.
Proof.
  intros Hh Hv Hp Ht.
  unfold readFromEnvironment, readHost, readVerbose, readPort, readTimeout.
  rewrite Hh, Hv, Hp, Ht. reflexivity.
Qed.

(** X2. A variable that is not set leaves its field as it was, whatever
    the other variables hold and whether or not the call fails. *)
Theorem absent_variable_keeps_field env c :
  let r := (readFromEnvironment DefaultTimeout env c).1 in
  (LookupEnv env EnvHost = None -> host r = host c) /\
  (LookupEnv env EnvVerbose = None -> verbose r = verbose c) /\
  (LookupEnv env EnvPort = None -> port r = port c) /\
  (LookupEnv env EnvTimeout = None -> timeout r = timeout c).
Proof.
  cbv zeta. split; [|split; [|split]]; intros Hl.
  - rewrite rfe_host, readHost_absent by exact Hl. reflexivity.
  - rewrite rfe_verbose, readVerbose_absent by exact Hl. reflexivity.
  - rewrite rfe_port, readPort_absent by exact Hl. reflexivity.
  - rewrite rfe_timeout. destruct (readPort env c).2; [reflexivity|].
    rewrite readTimeout_absent by exact Hl. reflexivity.
Qed.

(** X3. The numeric fields stay within their Go types: if port and
    timeout are 64-bit values before the call they are so after it, on
    success and on error alike. *)
Theorem fields_stay_in_range env c :
  inInt64 (port c) -> inInt64 (timeout c) ->
  let r := (readFromEnvironment DefaultTimeout env c).1 in
  inInt64 (port r) /\ inInt64 (timeout r).
Proof.
  intros Hp Ht. cbv zeta. split.
  - rewrite rfe_port.
    destruct (Z.eq_dec (port c) defaultPort) as [Hd|Hd];
      [|rewrite readPort_flag by exact Hd; exact Hp].
    destruct (LookupEnv env EnvPort) as [p|] eqn:Hl;
      [|rewrite readPort_absent by exact Hl; exact Hp].
    rewrite (readPort_env env c p Hd Hl). apply Atoi_inInt64.
  - rewrite rfe_timeout. destruct (readPort env c).2; [exact Ht|].
    destruct (Z.eq_dec (timeout c) DefaultTimeout) as [Hd|Hd];
      [|rewrite readTimeout_flag by exact Hd; exact Ht].
    destruct (LookupEnv env EnvTimeout) as [t|] eqn:Hl;
      [|rewrite readTimeout_absent by exact Hl; exact Ht].
    rewrite (readTimeout_env DefaultTimeout env c t Hd Hl). apply ParseDuration_inInt64.
Qed.

Lemma rejected_port_value env c :
  portRejected env c ->
  port (readFromEnvironment DefaultTimeout env c).1 <> defaultPort /\
  (readPort env c).2 <> None.
Proof.
  intros Hrej. pose proof Hrej as (Hp & p & Hl & Hv). split.
  - rewrite rfe_port, (readPort_env env c p Hp Hl). cbn [fst port set_port].
    destruct (strconv.Atoi p) as [n [e|]] eqn:Ha; cbn [fst].
    + apply Atoi_error in Ha. destruct e; [subst n; discriminate|].
      destruct Ha as [-> | ->]; discriminate.
    + exfalso. apply Hv, Atoi_valid. rewrite Ha. reflexivity.
  - apply readPort_error, Hrej.
Qed.

(** X4. Running [readFromEnvironment] again after a failure.  After a
    port error the port variable is not consulted again: the second run
    fails exactly when the timeout variable is consulted and invalid.
    After a timeout error, [proxy.DefaultTimeout] not being zero, the
    second run returns nil and changes nothing. *)
Theorem rerun_after_failure env c :
  let r := (readFromEnvironment DefaultTimeout env c).1 in
  (portRejected env c ->
   ~ portRejected env r /\
   ((readFromEnvironment DefaultTimeout env r).2 <> None <->
    timeoutRejected DefaultTimeout env c)) /\
  (~ portRejected env c -> timeoutRejected DefaultTimeout env c ->
   DefaultTimeout <> 0 ->
   readFromEnvironment DefaultTimeout env r = (r, None)).
Proof.
  cbv zeta. split.
  - intros Hrej. destruct (rejected_port_value env c Hrej) as [Hne Herr].
    split; [intros [H _]; contradiction|].
    rewrite rfe_error, readPort_flag by exact Hne. cbn [snd].
    assert (timeout (readFromEnvironment DefaultTimeout env c).1 = timeout c) as Ht.
    { rewrite rfe_timeout. destruct (readPort env c).2; [reflexivity | contradiction]. }
    destruct (readTimeout_cong DefaultTimeout env _ c Ht) as [_ ->].
    apply readTimeout_error.
  - intros Hport (Ht & t & Hl & Hv) Hdt.
    destruct (portRejected_dec env c) as [H|Hok]; [contradiction|].
    set (r := (readFromEnvironment DefaultTimeout env c).1).
    assert (timeout r <> DefaultTimeout) as Hr.
    { unfold r. rewrite rfe_timeout, Hok,
        (readTimeout_env DefaultTimeout env c t Ht Hl).
      cbn [fst timeout set_timeout]. rewrite <- ParseDuration_valid in Hv.
      destruct (time.ParseDuration t) as [d [e|]] eqn:Hd; cbn [fst snd] in *.
      - apply ParseDuration_error in Hd. subst d. auto.
      - contradiction. }
    unfold readFromEnvironment.
    rewrite (readHost_fix env r c) by apply rfe_host.
    rewrite (readVerbose_fix env r c) by apply rfe_verbose.
    rewrite (readPort_fix env r c Hok) by apply rfe_port.
    apply readTimeout_flag, Hr.
Qed.

(** X5. A flag given with its default value is as good as not given:
    the resolution with such flags taken off the command line gives the
    same record and the same error. *)
Theorem default_valued_flags_ignored args env :
  resolve DefaultTimeout args env
  = resolve DefaultTimeout (dropDefaults DefaultTimeout args) env.
Proof.
  unfold resolve. f_equal. unfold flagParse, dropDefaults, init.
  cbn [flagVerbose flagHost flagPort flagTimeout].
  destruct (flagVerbose args) as [[|]|], (flagHost args) as [h|],
    (flagPort args) as [n|], (flagTimeout args) as [d|];
    try destruct (String.eqb_spec h "localhost");
    try destruct (Z.eqb_spec n defaultPort);
    try destruct (Z.eqb_spec d DefaultTimeout);
    subst; reflexivity.
Qed.

(** X6. [%d] and [strconv.Atoi] are inverse on [int]: the port text
    [main] puts in the listen address reads back as the port. *)
Theorem Atoi_formatInt n :
  inInt64 n -> strconv.Atoi (formatInt n) = (n, None).
Proof.
  intros Hn. apply Atoi_ok_iff. split; [apply intSyntax_formatInt, Hn | exact Hn].
Qed.

End Further.

(** ** Properties of the startup sequence *)

Ltac in_trace H :=
  cbn in H; repeat (destruct H as [H | H]; try discriminate H); try contradiction.

Section StartupProperties.

Variable DefaultTimeout : Z.

(** X7. The listener is started only on a fully resolved configuration,
    and after it.  If [main] reaches [http.ListenAndServe], then the
    credential configuration, the private key and the handler were obtained
    without error, the flags were parsed and [readFromEnvironment] returned
    nil, so no consulted port or timeout variable was invalid; the address
    is [host:port] of the resolved record.  The handler's timeout is set to
    the resolved timeout immediately before the listening address is logged
    and the listener started; the flags are parsed, the environment is
    read, the private key is requested and the handler is built before
    that, and the listener is started once. *)
Theorem listener_only_after_resolution (w : World) (addr : string) :
  List.In (CallListenAndServe addr) (main DefaultTimeout w).1 ->
  newConfigErr w = None /\ privateKeyErr w = None /\ proxyNewErr w = None /\
  exists args c,
    flags w = inl args /\
    resolve DefaultTimeout args (environ w) = (c, None) /\
    ~ portRejected (environ w) (flagParse args (init DefaultTimeout)) /\
    ~ timeoutRejected DefaultTimeout (environ w) (flagParse args (init DefaultTimeout)) /\
    addr = (host c ++ ":" ++ formatInt (port c))%string /\
    exists pre post,
      (main DefaultTimeout w).1
      = (pre ++ SetProxyTimeout (timeout c)
             :: LogInfo "Listening on %s (HTTP, no TLS)" addr
             :: CallListenAndServe addr :: post)%list /\
      (forall a, ~ List.In (CallListenAndServe a) pre) /\
      (forall a, ~ List.In (CallListenAndServe a) post) /\
      List.In CallFlagParse pre /\
      List.In CallConfigReadFromEnvironment pre /\
      List.In CallPrivateKey pre /\
      List.In (CallProxyNew cacheSize) pre.
Proof.
  unfold main.
  destruct (newConfigErr w) as [e0|]; [intros H; in_trace H|].
  destruct (flags w) as [args|code]; [|intros H; in_trace H].
  destruct (readFromEnvironment DefaultTimeout (environ w)
              (flagParse args (init DefaultTimeout))) as [c [e|]] eqn:Hres;
    [intros H; in_trace H|].
  assert (~ portRejected (environ w) (flagParse args (init DefaultTimeout)) /\
          ~ timeoutRejected DefaultTimeout (environ w)
              (flagParse args (init DefaultTimeout))) as [Hp Ht].
  { split; intros Hrej;
      assert ((readFromEnvironment DefaultTimeout (environ w)
                 (flagParse args (init DefaultTimeout))).2 <> None) as Hne
        by (apply error_iff_rejected; auto);
      rewrite Hres in Hne; apply Hne; reflexivity. }
  unfold serve, deferred.
  destruct (privateKeyErr w) as [e1|];
    [destruct (verbose c); intros H; in_trace H|].
  destruct (proxyNewErr w) as [e2|];
    [destruct (verbose c); intros H; in_trace H|].
  intros H.
  assert (addr = (host c ++ ":" ++ formatInt (port c))%string) as Ha.
  { destruct (listenErr w), (verbose c); in_trace H;
      injection H as H; symmetry; exact H. }
  clear H. subst addr.
  split; [reflexivity|]. split; [reflexivity|]. split; [reflexivity|].
  exists args, c. unfold resolve.
  split; [reflexivity|]. split; [exact Hres|]. split; [exact Hp|].
  split; [exact Ht|]. split; [reflexivity|].
  destruct (listenErr w), (verbose c); cbn;
    match goal with
    | |- exists pre post, ?l = _ /\ _ =>
        first [ exists (firstn 7 l), (skipn 10 l); split; [reflexivity|]
              | exists (firstn 8 l), (skipn 11 l); split; [reflexivity|] ]
    end;
    (split; [intros a H; in_trace H|]);
    (split; [intros a H; in_trace H|]);
    cbn; tauto.
Qed.

(** X8. When the listener stops, [main] logs the error and the process
    ends with status 0: the deferred function finds [err] nil and writes
    nothing, so no line goes to standard error through [fmt]. *)
Theorem listener_stop_exits_zero (w : World) (addr e : string) :
  List.In (CallListenAndServe addr) (main DefaultTimeout w).1 ->
  listenErr w = Some e ->
  (main DefaultTimeout w).2 = Exit 0 /\
  last (main DefaultTimeout w).1 = Some (LogError "Server stopped: %s" e) /\
  forall text, ~ List.In (StderrWrite text) (main DefaultTimeout w).1.
Proof.
  unfold main.
  destruct (newConfigErr w) as [e0|]; [intros H; in_trace H|].
  destruct (flags w) as [args|code]; [|intros H; in_trace H].
  destruct (readFromEnvironment DefaultTimeout (environ w)
              (flagParse args (init DefaultTimeout))) as [c [e'|]] eqn:Hres;
    [intros H; in_trace H|].
  unfold serve, deferred.
  destruct (privateKeyErr w) as [e1|];
    [destruct (verbose c); intros H; in_trace H|].
  destruct (proxyNewErr w) as [e2|];
    [destruct (verbose c); intros H; in_trace H|].
  intros _ ->. destruct (verbose c); cbn;
    (split; [reflexivity | split; [reflexivity|]]);
    intros text H; in_trace H.
Qed.

(** X9. An invalid environment stops the startup at once.  With the
    credential configuration loaded and the flags parsed, a consulted port
    or timeout variable that is invalid makes [main] write one line,
    "Error reading environment: " followed by the error of
    [readFromEnvironment], and exit with status 1; the private key is not
    requested, no handler is built and no listener started. *)
Theorem invalid_environment_stops_startup (w : World) (args : CommandLine) :
  newConfigErr w = None ->
  flags w = inl args ->
  portRejected (environ w) (flagParse args (init DefaultTimeout)) \/
  timeoutRejected DefaultTimeout (environ w) (flagParse args (init DefaultTimeout)) ->
  exists msg,
    (resolve DefaultTimeout args (environ w)).2 = Some msg /\
    main DefaultTimeout w
    = ([CallNewConfig; CallRegisterCommandLineFlags; CallFlagParse;
        StderrWrite ("Error reading environment: " ++ msg ++ nl)%string],
       Exit 1).
Proof.
  intros Hcfg Hflags Hrej. apply error_iff_rejected in Hrej.
  unfold main, resolve. rewrite Hcfg, Hflags.
  destruct (readFromEnvironment DefaultTimeout (environ w)
              (flagParse args (init DefaultTimeout))) as [c [msg|]];
    [|exfalso; apply Hrej; reflexivity].
  exists msg. split; reflexivity.
Qed.

(** X10. Status 1 is always explained by one line that [main] writes
    with [fmt.Fprintf(os.Stderr, ...)].  When the process ends with status 1
    (the [flag] package not being the one that ended it), the last thing
    [main] did was such a write, it made no other, and the listener was
    never started.  The line is the credential configuration error, the
    environment error, or, from the deferred function, the error of the
    private key or of the handler's construction.  Only in the last case
    did [main] also call [log.Error], with the same error, immediately
    before the write; what package [log] does with it is not part of the
    model and not counted here. *)
Theorem exit_one_reports_once (w : World) :
  (main DefaultTimeout w).2 = Exit 1 ->
  flags w <> inr 1 ->
  exists pre text,
    (main DefaultTimeout w).1 = (pre ++ [StderrWrite text])%list /\
    (forall t, ~ List.In (StderrWrite t) pre) /\
    (forall a, ~ List.In (CallListenAndServe a) (main DefaultTimeout w).1) /\
    ((exists e, newConfigErr w = Some e /\
        text = ("Failed to load credential configuration: " ++ e ++ nl)%string /\
        forall f m, ~ List.In (LogError f m) pre) \/
     (exists args e, newConfigErr w = None /\ flags w = inl args /\
        (resolve DefaultTimeout args (environ w)).2 = Some e /\
        text = ("Error reading environment: " ++ e ++ nl)%string /\
        forall f m, ~ List.In (LogError f m) pre) \/
     (exists args e, newConfigErr w = None /\ flags w = inl args /\
        (resolve DefaultTimeout args (environ w)).2 = None /\
        privateKeyErr w = Some e /\
        text = ("Error: " ++ e ++ nl)%string /\
        last pre = Some CallPrivateKey /\
        forall f m, ~ List.In (LogError f m) pre) \/
     (exists args e, newConfigErr w = None /\ flags w = inl args /\
        (resolve DefaultTimeout args (environ w)).2 = None /\
        privateKeyErr w = None /\ proxyNewErr w = Some e /\
        text = ("Error: " ++ e ++ nl)%string /\
        last pre = Some (LogError "Error initializing proxy service: %v" e))).
Proof.
  unfold main, resolve.
  destruct (newConfigErr w) as [e0|].
  - intros _ _. exists [CallNewConfig]. eexists. split; [reflexivity|].
    split; [intros t H; in_trace H|]. split; [intros a H; in_trace H|].
    left. exists e0. split; [reflexivity|]. split; [reflexivity|].
    intros f m H; in_trace H.
  - destruct (flags w) as [args|code];
      [|cbn; intros [= ->] Hne; exfalso; apply Hne; reflexivity].
    destruct (readFromEnvironment DefaultTimeout (environ w)
                (flagParse args (init DefaultTimeout))) as [c [e|]] eqn:Hres.
    + intros _ _.
      exists [CallNewConfig; CallRegisterCommandLineFlags; CallFlagParse].
      eexists. split; [reflexivity|].
      split; [intros t H; in_trace H|]. split; [intros a H; in_trace H|].
      right; left. exists args, e. rewrite Hres.
      split; [reflexivity|]. split; [reflexivity|]. split; [reflexivity|].
      split; [reflexivity|]. intros f m H; in_trace H.
    + unfold serve, deferred.
      destruct (privateKeyErr w) as [e1|]; [|destruct (proxyNewErr w) as [e2|]].
      * intros _ _; destruct (verbose c); cbn;
          match goal with
          | |- exists pre text, ?l = _ /\ _ => exists (removelast l)
          end;
          eexists; (split; [reflexivity|]);
          (split; [intros t H; in_trace H|]);
          (split; [intros a H; in_trace H|]);
          right; right; left; exists args, e1; rewrite Hres;
          (split; [reflexivity|]); (split; [reflexivity|]);
          (split; [reflexivity|]); (split; [reflexivity|]);
          (split; [reflexivity|]); (split; [reflexivity|]);
          intros f m H; in_trace H.
      * intros _ _; destruct (verbose c); cbn;
          match goal with
          | |- exists pre text, ?l = _ /\ _ => exists (removelast l)
          end;
          eexists; (split; [reflexivity|]);
          (split; [intros t H; in_trace H|]);
          (split; [intros a H; in_trace H|]);
          right; right; right; exists args, e2; rewrite Hres;
          (split; [reflexivity|]); (split; [reflexivity|]);
          (split; [reflexivity|]); (split; [reflexivity|]);
          (split; [reflexivity|]); (split; [reflexivity|]);
          reflexivity.
      * destruct (listenErr w); destruct (verbose c); cbn; discriminate.
Qed.

End StartupProperties.

(** ** The further properties at concrete inputs *)

Ltac find_in := vm_compute; repeat (first [left; reflexivity | right]).

Lemma notanumber_invalid : ~ validInt "notanumber".
Proof. intros (n & Hs & _). vm_compute in Hs. discriminate. Qed.

Lemma reads_only_four_variables_witness :
  readFromEnvironment tenSeconds testEnv (init tenSeconds)
  = readFromEnvironment tenSeconds (<["HOME" := "/root"]> testEnv) (init tenSeconds).
Proof.
  apply (reads_only_four_variables tenSeconds testEnv
           (<["HOME" := "/root"]> testEnv)); reflexivity.
Defined.

Lemma absent_variable_keeps_field_witness :
  let env : gmap string string :=
    <[EnvPort := "notanumber"]> (<[EnvVerbose := "true"]> ∅) in
  let r := (readFromEnvironment tenSeconds env (init tenSeconds)).1 in
  host r = "localhost" /\ timeout r = tenSeconds.
Proof.
  destruct (absent_variable_keeps_field tenSeconds
              (<[EnvPort := "notanumber"]> (<[EnvVerbose := "true"]> ∅))
              (init tenSeconds)) as (Hh & _ & _ & Ht).
  cbv zeta. split.
  - apply Hh. reflexivity.
  - apply Ht. reflexivity.
Defined.

Lemma fields_stay_in_range_witness :
  let r := (readFromEnvironment tenSeconds (<[EnvPort := "9223372036854775808"]> ∅)
              (init tenSeconds)).1 in
  inInt64 (port r) /\ inInt64 (timeout r).
Proof.
  apply (fields_stay_in_range tenSeconds); apply inInt64_small; vm_compute;
    split; discriminate.
Defined.

Lemma rerun_after_failure_witness :
  let c := init tenSeconds in
  let r := (readFromEnvironment tenSeconds badPortEnv c).1 in
  let env' : gmap string string := <[EnvTimeout := "notaduration"]> ∅ in
  let r' := (readFromEnvironment tenSeconds env' c).1 in
  (~ portRejected badPortEnv r /\
   ((readFromEnvironment tenSeconds badPortEnv r).2 <> None <->
    timeoutRejected tenSeconds badPortEnv c)) /\
  readFromEnvironment tenSeconds env' r' = (r', None).
Proof.
  cbv zeta. split.
  - apply (rerun_after_failure tenSeconds badPortEnv (init tenSeconds)).
    split; [reflexivity|]. exists "notanumber".
    split; [reflexivity | exact notanumber_invalid].
  - apply (rerun_after_failure tenSeconds (<[EnvTimeout := "notaduration"]> ∅)
             (init tenSeconds)).
    + intros (_ & p & Hl & _). vm_compute in Hl. discriminate.
    + split; [reflexivity|]. exists "notaduration". split; [reflexivity|].
      intros Hv. apply ParseDuration_valid in Hv. vm_compute in Hv. discriminate.
    + vm_compute. discriminate.
Defined.

Lemma Atoi_formatInt_witness :
  strconv.Atoi (formatInt 8080) = (8080, None) /\
  strconv.Atoi (formatInt (-9223372036854775808)) = (-9223372036854775808, None).
Proof.
  split; apply Atoi_formatInt; apply inInt64_small; lia.
Defined.

Lemma listener_only_after_resolution_witness :
  exists args c pre post,
    flags bindFailure = inl args /\
    resolve tenSeconds args (environ bindFailure) = (c, None) /\
    "localhost:9090" = (host c ++ ":" ++ formatInt (port c))%string /\
    (main tenSeconds bindFailure).1
    = (pre ++ SetProxyTimeout (timeout c)
           :: LogInfo "Listening on %s (HTTP, no TLS)" "localhost:9090"
           :: CallListenAndServe "localhost:9090" :: post)%list /\
    List.In CallConfigReadFromEnvironment pre /\
    List.In (CallProxyNew cacheSize) pre.
Proof.
  destruct (listener_only_after_resolution tenSeconds bindFailure "localhost:9090")
    as (_ & _ & _ & args & c & Hf & Hr & _ & _ & Ha
          & pre & post & Hm & _ & _ & _ & He & _ & Hn).
  - find_in.
  - exists args, c, pre, post. auto 10.
Defined.

Lemma listener_stop_exits_zero_witness :
  (main tenSeconds bindFailure).2 = Exit 0 /\
  last (main tenSeconds bindFailure).1
  = Some (LogError "Server stopped: %s"
            "listen tcp 127.0.0.1:9090: bind: address already in use").
Proof.
  destruct (listener_stop_exits_zero tenSeconds bindFailure "localhost:9090"
              "listen tcp 127.0.0.1:9090: bind: address already in use")
    as (Hx & Hl & _).
  - find_in.
  - reflexivity.
  - split; [exact Hx | exact Hl].
Defined.

Lemma invalid_environment_stops_startup_witness :
  exists msg,
    (resolve tenSeconds
       {| flagVerbose := Some true; flagHost := None; flagPort := None;
          flagTimeout := None |} (environ badPortWorld)).2 = Some msg /\
    main tenSeconds badPortWorld
    = ([CallNewConfig; CallRegisterCommandLineFlags; CallFlagParse;
        StderrWrite ("Error reading environment: " ++ msg ++ nl)%string],
       Exit 1).
Proof.
  apply (invalid_environment_stops_startup tenSeconds badPortWorld).
  - reflexivity.
  - reflexivity.
  - left. split; [reflexivity|]. exists "notanumber".
    split; [reflexivity | exact notanumber_invalid].
Defined.

Lemma exit_one_reports_once_witness :
  exists pre text,
    (main tenSeconds proxyFailure).1 = (pre ++ [StderrWrite text])%list /\
    text = ("Error: invalid key" ++ nl)%string /\
    last pre = Some (LogError "Error initializing proxy service: %v" "invalid key") /\
    forall t, ~ List.In (StderrWrite t) pre.
Proof.
  destruct (exit_one_reports_once tenSeconds proxyFailure)
    as (pre & text & Ht & Hone & _ & Hwhy).
  - vm_compute. reflexivity.
  - discriminate.
  - exists pre, text. split; [exact Ht|].
    destruct Hwhy as [(e & He & _)
                     | [(args & e & _ & Hf & He & _)
                     | [(args & e & _ & _ & _ & He & _)
                     | (args & e & _ & _ & _ & _ & He & Htext & Hlast)]]].
    + discriminate He.
    + vm_compute in Hf. injection Hf as <-. vm_compute in He. discriminate He.
    + discriminate He.
    + vm_compute in He. injection He as <-.
      split; [exact Htext|]. split; [exact Hlast | exact Hone].
Defined.
